(** * Comment-Insights-Tool: the YouTube comment analysis pipeline

    A shallow embedding of [src/youtube_comment_analyzer.py]
    (class [YouTubeCommentAnalyzer]) and the properties of its pipeline:
    resolver, metadata fetcher, comment paginator, sentiment annotator,
    lexical aggregator and report compiler.

    Conventions of the embedding.
    - A Python [str] is a [string]; a character is its code point, so the
      model covers the texts whose code points are below 256 (ASCII and
      Latin-1).  The tables for [str.lower] and the regular expression
      class [\w] follow Python on that range.
    - A Python [int] is a [Z], a Python [float] is a binary64 [float].
    - A comment is a Python [dict] with string keys: a [gmap string value].
      Reading a key that is absent raises [KeyError].
    - The remote API client ([self.youtube]) is a state machine given as a
      parameter: every [execute()] is one transition that answers with a
      page or raises [HttpError].
    - The [while] loop of [get_comments] is bounded by a fuel argument;
      running out of fuel is reported apart from every Python result.  *)

From Stdlib Require Import Floats ZArith Ascii String List Lia Bool Permutation Sorted.
From stdpp Require Import gmap strings list sorting.
Import ListNotations.

Set Warnings "-inexact-float".
Open Scope string_scope.
Open Scope list_scope.
Open Scope nat_scope.

(* ===================================================================== *)
(** ** Characters and the character classes of the regular expressions   *)
(* ===================================================================== *)

Module Chars.

Definition code (c : ascii) : N := N_of_ascii c.

Definition between (lo hi : N) (c : ascii) : bool :=
  ((lo <=? code c) && (code c <=? hi))%N.

(** [[0-9]], [[A-Z]], [[a-z]] *)
Definition is_digit (c : ascii) : bool := between 48 57 c.
Definition is_upper (c : ascii) : bool := between 65 90 c.
Definition is_lower (c : ascii) : bool := between 97 122 c.

(** The class [[0-9A-Za-z_-]] of [extract_video_id]. *)
Definition is_id_char (c : ascii) : bool :=
  is_digit c || is_upper c || is_lower c ||
  (code c =? 95)%N || (code c =? 45)%N.

(** The class [[a-zA-Z]] of [extract_common_words]. *)
Definition is_alpha (c : ascii) : bool := is_lower c || is_upper c.

(** The class [\w] of a [str] pattern: alphanumeric in the Unicode sense,
    or the underscore.  Above ASCII the alphanumeric code points below 256
    are the letters (ordinal indicators, micro sign, U+00C0..U+00FF but the
    multiplication and division signs) and the numeric characters
    (superscript digits and vulgar fractions). *)
Definition is_word (c : ascii) : bool :=
  is_digit c || is_upper c || is_lower c || (code c =? 95)%N ||
  (code c =? 170)%N || (code c =? 181)%N || (code c =? 186)%N ||
  (code c =? 178)%N || (code c =? 179)%N || (code c =? 185)%N ||
  between 188 190 c ||
  between 192 214 c || between 216 246 c || between 248 255 c.

(** [str.lower] on one character: the ASCII capitals and the Latin-1
    capitals U+00C0..U+00DE (but U+00D7) move up by 32. *)
Definition lower_char (c : ascii) : ascii :=
  if is_upper c || between 192 214 c || between 216 222 c
  then ascii_of_N (code c + 32) else c.

Fixpoint lower (s : string) : string :=
  match s with
  | EmptyString => EmptyString
  | String c r => String (lower_char c) (lower r)
  end.

End Chars.

(* ===================================================================== *)
(** ** Video Resolver: [extract_video_id]                                *)
(* ===================================================================== *)

(** [[0-9A-Za-z_-]{n}] anchored at the start of [s]: the [n] characters
    matched, when there are [n] of them and all are in the class. *)
Fixpoint id_run (n : nat) (s : string) : option string :=
  match n with
  | O => Some EmptyString
  | S k =>
      match s with
      | EmptyString => None
      | String c r =>
          if Chars.is_id_char c
          then match id_run k r with
               | Some t => Some (String c t)
               | None => None
               end
          else None
      end
  end.

(** The pattern [(?:v=|\/)([0-9A-Za-z_-]{11}).*] anchored at the start of
    [s]; the result is group 1.  The alternatives are tried in order; the
    trailing [.*] matches the empty string and never makes a match fail. *)
Definition match_here (s : string) : option string :=
  let alt1 :=
    match s with
    | String "v" (String "=" r) => id_run 11 r
    | _ => None
    end in
  match alt1 with
  | Some t => Some t
  | None =>
      match s with
      | String "/" r => id_run 11 r
      | _ => None
      end
  end.

(** [re.search]: the leftmost position at which the pattern matches. *)
Fixpoint re_search (s : string) : option string :=
  match match_here s with
  | Some t => Some t
  | None =>
      match s with
      | EmptyString => None
      | String _ r => re_search r
      end
  end.

(** [extract_video_id(url)]: [group(1)] of the match, or [None]. *)
Definition extract_video_id (url : string) : option string :=
  match re_search url with
  | Some video_id_match => Some video_id_match
  | None => None
  end.

(** *** The rule in the words of the specification *)

(** The alphabet [{A-Z, a-z, 0-9, -, _}] written out. *)
Definition id_alphabet : string :=
  "ABCDEFGHIJKLMNOPQRSTUVWXYZabcdefghijklmnopqrstuvwxyz0123456789-_".

Definition in_alphabet (c : ascii) : Prop :=
  In c (list_ascii_of_string id_alphabet).

(** [tok] is a run of exactly 11 characters of the alphabet that
    immediately follows a [v=] marker or a [/] separator starting at
    offset [i] of [url]. *)
Definition id_token_at (url : string) (i : nat) (tok : string) : Prop :=
  exists pre marker post,
    url = String.append pre (String.append marker (String.append tok post)) /\
    String.length pre = i /\
    (marker = "v=" \/ marker = "/") /\
    String.length tok = 11 /\
    (forall c, In c (list_ascii_of_string tok) -> in_alphabet c).

(* ===================================================================== *)
(** ** Data model                                                        *)
(* ===================================================================== *)

(** The values stored in a comment dictionary. *)
Inductive value : Type :=
  | VStr (s : string)
  | VInt (z : Z)
  | VFloat (f : float).

(** A comment is a [dict]; its keys are added by [get_comments] and by
    [analyze_sentiment]. *)
Abbreviation comment := (gmap string value).

(** The exceptions the pipeline can meet. *)
Inductive pyerr : Type :=
  | HttpError
  | KeyError (key : string)
  | TypeError
  | AttributeError.

(** The result of running a method: it returns, it raises, or the bound on
    the number of loop iterations was reached first. *)
Inductive run (A : Type) : Type :=
  | Ret (a : A)
  | Exn (e : pyerr)
  | Fuel.
Arguments Ret {A} a.
Arguments Exn {A} e.
Arguments Fuel {A}.

(** One element of [response['items']] of [commentThreads().list]: the
    fields of [item['snippet']['topLevelComment']['snippet']] that the code
    reads, and [item['snippet']['totalReplyCount']]. *)
Record thread_item : Type := {
  authorDisplayName : string;
  textDisplay : string;
  publishedAt : string;
  likeCount : Z;
  totalReplyCount : Z
}.

(** The keyword arguments of [commentThreads().list] that vary
    ([part='snippet'] and [textFormat='plainText'] are constants). *)
Record threads_request : Type := {
  videoId : string;
  maxResults : Z;
  pageToken : option string
}.

(** [execute()] raises [HttpError] or returns the page: its items and
    [response.get('nextPageToken')]. *)
Inductive threads_response : Type :=
  | ThreadsError
  | ThreadsPage (items : list thread_item) (nextPageToken : option string).

(** One element of [response['items']] of [videos().list]; a statistic that
    is absent is [None], a present one is the integer its text denotes. *)
Record video_item : Type := {
  snippet_title : string;
  snippet_channelTitle : string;
  snippet_publishedAt : string;
  statistics_viewCount : option Z;
  statistics_likeCount : option Z;
  statistics_commentCount : option Z;
  contentDetails_duration : string
}.

Inductive videos_response : Type :=
  | VideosError
  | VideosOk (items : list video_item).

(** The dictionary [get_video_details] returns. *)
Record video_details : Type := {
  title : string;
  channel : string;
  published_at : string;
  view_count : Z;
  like_count : Z;
  comment_count : Z;
  duration : string
}.

(** The requests sent to the remote API, with their answers, in order. *)
Inductive event : Type :=
  | EvVideos (id : string) (r : videos_response)
  | EvThreads (rq : threads_request) (r : threads_response).

Definition is_failure (e : event) : bool :=
  match e with
  | EvVideos _ VideosError => true
  | EvThreads _ ThreadsError => true
  | _ => false
  end.

(** No request of the trace failed. *)
Definition no_failure (tr : list event) : Prop :=
  forall e, In e tr -> is_failure e = false.

(** Truth value of [next_page_token]: [None] and the empty string are
    false. *)
Definition truthy (t : option string) : bool :=
  match t with
  | Some (String _ _) => true
  | _ => false
  end.

(** The dictionary appended for one item. *)
Definition comment_of_item (item : thread_item) : comment :=
  <["reply_count" := VInt (totalReplyCount item)]>
  (<["like_count" := VInt (likeCount item)]>
  (<["published_at" := VStr (publishedAt item)]>
  (<["text" := VStr (textDisplay item)]>
  (<["author" := VStr (authorDisplayName item)]> ∅)))).

(* ===================================================================== *)
(** ** Metadata Fetcher and Comment Paginator                            *)
(* ===================================================================== *)

Section Client.

(** The API client: its state and the two operations the code calls. *)
Variable S : Type.
Variable videos_list : S -> string -> videos_response * S.
Variable threads_list : S -> threads_request -> threads_response * S.

(** [get_video_details(video_id)]: one request; [None] on [HttpError] or
    on an empty item list. *)
Definition get_video_details (video_id : string) (s : S)
  : option video_details * list event * S :=
  let '(response, s') := videos_list s video_id in
  let tr := [EvVideos video_id response] in
  match response with
  | VideosError => (None, tr, s')
  | VideosOk [] => (None, tr, s')
  | VideosOk (video_data :: _) =>
      (Some {| title := snippet_title video_data;
               channel := snippet_channelTitle video_data;
               published_at := snippet_publishedAt video_data;
               view_count := default 0%Z (statistics_viewCount video_data);
               like_count := default 0%Z (statistics_likeCount video_data);
               comment_count := default 0%Z (statistics_commentCount video_data);
               duration := contentDetails_duration video_data |}, tr, s')
  end.

(** The [while] loop of [get_comments], inside the [try].  The loop
    condition is tested before a request is made; an [HttpError] leaves the
    loop as an exception. *)
Fixpoint fetch_loop (fuel : nat) (video_id : string) (max_comments : Z)
    (next_page_token : option string) (comment_count : Z)
    (comments : list comment) (s : S)
  : run (list comment) * list event * S :=
  if (comment_count <? max_comments)%Z then
    match fuel with
    | O => (Fuel, [], s)
    | Datatypes.S fuel' =>
        let rq := {| videoId := video_id;
                     maxResults := Z.min 100 (max_comments - comment_count);
                     pageToken := next_page_token |} in
        let '(response, s') := threads_list s rq in
        match response with
        | ThreadsError => (Exn HttpError, [EvThreads rq response], s')
        | ThreadsPage items next =>
            let comments' := comments ++ map comment_of_item items in
            let comment_count' := (comment_count + Z.of_nat (List.length items))%Z in
            if negb (truthy next) || (comment_count' >=? max_comments)%Z
            then (Ret comments', [EvThreads rq response], s')
            else
              let '(r, tr, s'') :=
                fetch_loop fuel' video_id max_comments next comment_count'
                           comments' s' in
              (r, EvThreads rq response :: tr, s'')
        end
    end
  else (Ret comments, [], s).

(** [get_comments(video_id, max_comments)]: the loop, and the handler
    [except HttpError: return []]. *)
Definition get_comments (fuel : nat) (video_id : string) (max_comments : Z)
    (s : S) : run (list comment) * list event * S :=
  let '(r, tr, s') := fetch_loop fuel video_id max_comments None 0%Z [] s in
  match r with
  | Exn HttpError => (Ret [], tr, s')
  | _ => (r, tr, s')
  end.

(** The comments of the pages that were answered, in order. *)
Fixpoint accumulated (tr : list event) : list comment :=
  match tr with
  | [] => []
  | EvThreads _ (ThreadsPage items _) :: tr' =>
      map comment_of_item items ++ accumulated tr'
  | _ :: tr' => accumulated tr'
  end.

End Client.

Arguments get_video_details {S} videos_list video_id s.
Arguments fetch_loop {S} threads_list fuel video_id max_comments
  next_page_token comment_count comments s.
Arguments get_comments {S} threads_list fuel video_id max_comments s.

(* ===================================================================== *)
(** ** Sentiment Annotator: [analyze_sentiment]                          *)
(* ===================================================================== *)

(** The literals [0.1] and [-0.1] of the source, as binary64 values. *)
Definition pos_threshold : float := 0.1%float.
Definition neg_threshold : float := (-0.1)%float.

(** The [if]/[elif]/[else] on [comment['polarity']]. *)
Definition sentiment_label (polarity : float) : string :=
  if PrimFloat.ltb pos_threshold polarity then "positive"
  else if PrimFloat.ltb polarity neg_threshold then "negative"
  else "neutral".

Section Annotator.

(** [TextBlob(text).sentiment]: polarity and subjectivity of a text. *)
Variable scorer : string -> float * float.

(** The body of the [for] loop on one comment.  [comment['text']] raises
    [KeyError] when the key is absent; [TextBlob] raises [TypeError] on a
    text that is not a [str]. *)
Definition annotate (c : comment) : pyerr + comment :=
  match c !! "text" with
  | None => inl (KeyError "text")
  | Some (VStr text) =>
      let analysis := scorer text in
      let c1 := <["polarity" := VFloat (fst analysis)]> c in
      let c2 := <["subjectivity" := VFloat (snd analysis)]> c1 in
      match c2 !! "polarity" with
      | Some (VFloat polarity) =>
          inr (<["sentiment" := VStr (sentiment_label polarity)]> c2)
      | Some _ => inl TypeError
      | None => inl (KeyError "polarity")
      end
  | Some _ => inl TypeError
  end.

(** The comment with its three annotations, for a text [text]. *)
Definition annotated_with (text : string) (c : comment) : comment :=
  <["sentiment" := VStr (sentiment_label (fst (scorer text)))]>
  (<["subjectivity" := VFloat (snd (scorer text))]>
  (<["polarity" := VFloat (fst (scorer text))]> c)).

(** A comment that carries a text, as every comment of [get_comments]
    does. *)
Definition has_text (c : comment) : Prop :=
  exists text, c !! "text" = Some (VStr text).

(** The three keys [analyze_sentiment] writes. *)
Definition annotation_key (k : string) : Prop :=
  k = "polarity" \/ k = "subjectivity" \/ k = "sentiment".

(** [analyze_sentiment(comments)]: the comments in order; the first
    exception ends the loop. *)
Fixpoint analyze_sentiment (comments : list comment) : pyerr + list comment :=
  match comments with
  | [] => inr []
  | c :: rest =>
      match annotate c with
      | inl e => inl e
      | inr c' =>
          match analyze_sentiment rest with
          | inl e => inl e
          | inr rest' => inr (c' :: rest')
          end
      end
  end.

End Annotator.

(* ===================================================================== *)
(** ** Lexical Aggregator: [extract_common_words]                        *)
(* ===================================================================== *)

(** The default stop words of the source. *)
Definition default_stopwords : gset string :=
  list_to_set
    ["the"; "and"; "is"; "of"; "to"; "in"; "that"; "it"; "with"; "for";
     "on"; "at"; "this"; "was"; "are"; "be"; "as"; "but"; "or"; "have";
     "from"; "by"; "not"; "what"; "all"; "were"; "when"; "we"; "there";
     "been"; "one"; "will"; "would"; "who"; "you"; "your"; "they"; "their";
     "has"; "had"; "how"; "up"; "his"; "her"; "an"; "my"; "so"; "if"; "out";
     "about"; "me"; "no"; "more"; "do"; "can"].

Definition is_word_opt (c : option ascii) : bool :=
  match c with
  | Some c => Chars.is_word c
  | None => false
  end.

Definition head_char (s : string) : option ascii :=
  match s with
  | EmptyString => None
  | String c _ => Some c
  end.

Fixpoint last_char (prev : option ascii) (s : string) : option ascii :=
  match s with
  | EmptyString => prev
  | String c r => last_char (Some c) r
  end.

(** [\b]: exactly one of the characters before and after the position is a
    word character. *)
Definition word_boundary (prev : option ascii) (s : string) : bool :=
  xorb (is_word_opt prev) (is_word_opt (head_char s)).

(** The longest prefix of [[a-zA-Z]] characters, and what follows it. *)
Fixpoint span_alpha (s : string) : string * string :=
  match s with
  | EmptyString => (EmptyString, EmptyString)
  | String c r =>
      if Chars.is_alpha c
      then let '(run, rest) := span_alpha r in (String c run, rest)
      else (EmptyString, s)
  end.

(** The pattern [\b[a-zA-Z]{n,}\b] anchored at one position, [prev] being the
    character before it.  The greedy quantifier takes the whole run of
    letters; a shorter non-empty prefix is followed by a letter, where there
    is no boundary, so the only other candidate is the empty match, which
    [{0,}] allows. *)
Definition match_word (n : nat) (prev : option ascii) (s : string) : option string :=
  if word_boundary prev s then
    let '(run, rest) := span_alpha s in
    if (1 <=? String.length run)%nat && (n <=? String.length run)%nat
       && word_boundary (last_char prev run) rest
    then Some run
    else if (n =? 0)%nat then Some EmptyString
    else None
  else None.

(** [re.findall]: the matches from left to right, without overlap; [skip]
    counts the characters of the last match still to pass.  After an empty
    match the scan moves on by one character. *)
Fixpoint findall_from (n : nat) (prev : option ascii) (s : string) (skip : nat)
  : list string :=
  match s with
  | EmptyString =>
      match skip with
      | O => match match_word n prev EmptyString with
             | Some t => [t]
             | None => []
             end
      | Datatypes.S _ => []
      end
  | String c r =>
      match skip with
      | Datatypes.S k => findall_from n (Some c) r k
      | O =>
          match match_word n prev s with
          | Some t => t :: findall_from n (Some c) r (String.length t - 1)
          | None => findall_from n (Some c) r 0
          end
      end
  end.

Definition findall (n : nat) (s : string) : list string :=
  findall_from n None s 0.

(** The words one comment adds to [all_words].  [comment['text']] raises
    [KeyError] when the key is absent, and a value that is not a [str] has
    no [lower]. *)
Definition words_of (min_length : nat) (stopwords : gset string) (c : comment)
  : pyerr + list string :=
  match c !! "text" with
  | None => inl (KeyError "text")
  | Some (VStr text) =>
      inr (List.filter (fun word => negb (bool_decide (word ∈ stopwords)))
                       (findall min_length (Chars.lower text)))
  | Some _ => inl AttributeError
  end.

Fixpoint all_words (min_length : nat) (stopwords : gset string)
    (comments : list comment) : pyerr + list string :=
  match comments with
  | [] => inr []
  | c :: rest =>
      match words_of min_length stopwords c with
      | inl e => inl e
      | inr words =>
          match all_words min_length stopwords rest with
          | inl e => inl e
          | inr more => inr (words ++ more)
          end
      end
  end.

(** [collections.Counter]: a dictionary from element to count that keeps its
    keys in the order of their first insertion. *)
Fixpoint counter_incr (w : string) (c : list (string * nat)) : list (string * nat) :=
  match c with
  | [] => [(w, 1)]
  | (k, n) :: r =>
      if String.eqb k w then (k, Datatypes.S n) :: r
      else (k, n) :: counter_incr w r
  end.

Definition Counter (ws : list string) : list (string * nat) :=
  fold_left (fun c w => counter_incr w c) ws [].

(** [sorted(items, key=..., reverse=True)]: a stable sort, so that elements
    with equal keys keep their order.  [geb a b] tells that the key of [a]
    is at least the key of [b]. *)
Section StableSort.

Context {A : Type} (geb : A -> A -> bool).

Fixpoint insert_desc (x : A) (l : list A) : list A :=
  match l with
  | [] => [x]
  | y :: r => if geb x y then x :: y :: r else y :: insert_desc x r
  end.

Definition sorted_desc (l : list A) : list A :=
  fold_right insert_desc [] l.

End StableSort.

(** [Counter.most_common(n)], which is [heapq.nlargest(n, items, key=count)]:
    the first [n] items of the stable sort by decreasing count. *)
Definition most_common (n : nat) (c : list (string * nat)) : list (string * nat) :=
  firstn n (sorted_desc (fun a b => (snd b <=? snd a)%nat) c).

(** [if stopwords is None: stopwords = {...}] *)
Definition stopwords_or_default (stopwords : option (gset string))
  : gset string :=
  match stopwords with
  | None => default_stopwords
  | Some sw => sw
  end.

(** [extract_common_words(comments, min_length, max_words, stopwords)];
    [min_length] and [max_words] are counts. *)
Definition extract_common_words (comments : list comment) (min_length : nat)
    (max_words : nat) (stopwords : option (gset string))
  : pyerr + list (string * nat) :=
  let stopwords := stopwords_or_default stopwords in
  match all_words min_length stopwords comments with
  | inl e => inl e
  | inr words => inr (most_common max_words (Counter words))
  end.

(** The offset of the first occurrence of a word in a list (its length when
    the word does not occur). *)
Fixpoint first_index (w : string) (ws : list string) : nat :=
  match ws with
  | [] => 0
  | x :: r => if String.eqb x w then 0 else Datatypes.S (first_index w r)
  end.

(** What the specification asks of a token: long enough, lowercase letters
    only, no stop word. *)
Definition good_token (min_length : nat) (stopwords : gset string)
    (w : string) : Prop :=
  min_length <= String.length w /\
  (forall c, In c (list_ascii_of_string w) ->
             Chars.is_lower c = true /\ Chars.is_alpha c = true) /\
  w ∉ stopwords.

(** The order of the entries of the result: the larger count first, and
    among equal counts the word met first in [words]. *)
Definition count_then_first_seen (words : list string)
    (a b : string * nat) : Prop :=
  snd b < snd a \/
  (snd a = snd b /\ first_index (fst a) words < first_index (fst b) words).

(* ===================================================================== *)
(** ** Report Compiler: [generate_report]                                *)
(* ===================================================================== *)

(** The dictionary of results. *)
Record report : Type := {
  video_details_of : video_details;
  total_analyzed : nat;
  sentiment_distribution : gmap string nat;
  avg_polarity : float;
  avg_subjectivity : float;
  common_words : list (string * nat);
  top_comments : list comment;
  all_comments : list comment
}.

(** What [generate_report] returns: [{"error": msg}] or the results. *)
Inductive result : Type :=
  | Error (msg : string)
  | Report (r : report).

Definition invalid_url : string := "Invalid YouTube URL".
Definition no_details : string := "Could not retrieve video details".
Definition no_comments : string := "No comments found or comments are disabled".

(** Columns of the data frame built from the comments. *)
Definition float_column (key : string) (rows : list comment) : list float :=
  omap (fun c => match c !! key with
                 | Some (VFloat f) => Some f
                 | _ => None
                 end) rows.

Definition str_column (key : string) (rows : list comment) : list string :=
  omap (fun c => match c !! key with
                 | Some (VStr s) => Some s
                 | _ => None
                 end) rows.

Definition like_of (c : comment) : Z :=
  match c !! "like_count" with
  | Some (VInt z) => z
  | _ => 0%Z
  end.

(** [value_counts().to_dict()]: how often each value occurs. *)
Definition value_counts (col : list string) : gmap string nat :=
  fold_right (fun l m => <[l := Datatypes.S (default 0 (m !! l))]> m) ∅ col.

Section Compiler.

Variable S : Type.
Variable videos_list : S -> string -> videos_response * S.
Variable threads_list : S -> threads_request -> threads_response * S.
Variable scorer : string -> float * float.

(** [Series.mean] of pandas. *)
Variable series_mean : list float -> float.

(** The row order [DataFrame.sort_values(key, ascending=False)] computes
    from the key column with its default [kind='quicksort']: the offsets of
    the rows, largest key first.  The algorithm is the library's. *)
Variable argsort_desc : list Z -> list nat.

Definition sort_values_like_count (rows : list comment) : list comment :=
  omap (fun i => rows !! i) (argsort_desc (map like_of rows)).

Definition generate_report (fuel : nat) (url : string) (max_comments : Z) (s : S)
  : run result * list event * S :=
  match extract_video_id url with
  | None | Some EmptyString => (Ret (Error invalid_url), [], s)
  | Some video_id =>
      let '(details, tr1, s1) := get_video_details videos_list video_id s in
      match details with
      | None => (Ret (Error no_details), tr1, s1)
      | Some details =>
          let '(r, tr2, s2) :=
            get_comments threads_list fuel video_id max_comments s1 in
          match r with
          | Fuel => (Fuel, tr1 ++ tr2, s2)
          | Exn e => (Exn e, tr1 ++ tr2, s2)
          | Ret [] => (Ret (Error no_comments), tr1 ++ tr2, s2)
          | Ret comments =>
              match analyze_sentiment scorer comments with
              | inl e => (Exn e, tr1 ++ tr2, s2)
              | inr analyzed_comments =>
                  match extract_common_words analyzed_comments 4 100 None with
                  | inl e => (Exn e, tr1 ++ tr2, s2)
                  | inr words =>
                      let df := analyzed_comments in
                      (Ret (Report
                         {| video_details_of := details;
                            total_analyzed := List.length analyzed_comments;
                            sentiment_distribution :=
                              value_counts (str_column "sentiment" df);
                            avg_polarity := series_mean (float_column "polarity" df);
                            avg_subjectivity :=
                              series_mean (float_column "subjectivity" df);
                            common_words := words;
                            top_comments := firstn 5 (sort_values_like_count df);
                            all_comments := df |}),
                       tr1 ++ tr2, s2)
                  end
              end
          end
      end
  end.

End Compiler.

Arguments sort_values_like_count argsort_desc rows : assert.
Arguments generate_report {S} videos_list threads_list scorer series_mean
  argsort_desc fuel url max_comments s.

(* ===================================================================== *)
(** ** Contracts of the collaborators                                    *)
(* ===================================================================== *)

(** The remote API serves the top-level comments [avail] of [video_id] in
    pages: a request at a page token is answered with a failure, or with a
    non-empty prefix of what remains that is no longer than [maxResults],
    and with a continuation token exactly when comments remain after
    it.  [offset] reads the position a token stands for. *)
Definition serves {S : Type}
    (threads_list : S -> threads_request -> threads_response * S)
    (video_id : string) (avail : list thread_item)
    (offset : option string -> nat) : Prop :=
  offset None = 0 /\
  forall s rq,
    videoId rq = video_id -> (1 <= maxResults rq)%Z ->
    match fst (threads_list s rq) with
    | ThreadsError => True
    | ThreadsPage items next =>
        let off := offset (pageToken rq) in
        items = firstn (List.length items) (skipn off avail) /\
        (Z.of_nat (List.length items) <= maxResults rq)%Z /\
        (off < List.length avail -> items <> []) /\
        (if truthy next
         then offset next = off + List.length items /\
              off + List.length items < List.length avail
         else List.length avail <= off + List.length items)
    end.

(** What the documentation of the sort promises: the offsets of all the
    rows, each once, keys in non-increasing order.  Nothing is promised
    about rows with equal keys. *)
Definition sorts_descending (argsort_desc : list Z -> list nat) : Prop :=
  forall keys,
    Permutation (argsort_desc keys) (seq 0 (List.length keys)) /\
    StronglySorted (fun a b => (nth b keys 0 <= nth a keys 0)%Z)
                   (argsort_desc keys).

(** The top five in the words of the specification: decreasing like count,
    ties in fetch order. *)
Definition top5_fetch_order (rows : list comment) : list comment :=
  firstn 5 (sorted_desc (fun a b => (like_of b <=? like_of a)%Z) rows).

(* ===================================================================== *)
(** ** The library's sort: [nargsort] of pandas over [argsort] of numpy  *)
(* ===================================================================== *)

(** [DataFrame.sort_values] with one column calls
    [nargsort(k, kind='quicksort', ascending=False)], which sorts the
    reversed column with [ndarray.argsort(kind='quicksort')] and reverses
    the outcome.  The quicksort of numpy ([aquicksort] in
    [npysort/quicksort.cpp]) is an introsort: median-of-three partitions
    while a segment spans more than 16 places, insertion sort below, and
    [aheapsort] once [2 * floor(log2 n)] partitions are nested.  The
    functions below follow that code loop by loop; [tosort] is the array
    of offsets it permutes, [pl], [pr], [pi], [pj] are places in it.
    This is the scalar code of numpy; where a build of numpy dispatches to
    a vectorised sort instead, the order of equal keys is that sort's. *)
Module NumpySort.

Section Argsort.

(** The keys, [v] in the C code. *)
Variable v : list Z.

Definition SMALL_QUICKSORT : nat := 16.

(** The key of the offset at the place [p]. *)
Definition key (tosort : list nat) (p : nat) : Z :=
  nth (nth p tosort 0) v 0%Z.

(** [INTP_SWAP] of the offsets at the places [a] and [b]. *)
Definition intp_swap (tosort : list nat) (a b : nat) : list nat :=
  <[b := nth a tosort 0]> (<[a := nth b tosort 0]> tosort).

(** [do ++pi while] the key at [pi] is less than [vp]. *)
Fixpoint scan_up (fuel : nat) (tosort : list nat) (vp : Z) (pi : nat) : nat :=
  match fuel with
  | O => pi
  | Datatypes.S fuel' =>
      let pi' := Datatypes.S pi in
      if (key tosort pi' <? vp)%Z then scan_up fuel' tosort vp pi' else pi'
  end.

(** [do --pj while] [vp] is less than the key at [pj]. *)
Fixpoint scan_down (fuel : nat) (tosort : list nat) (vp : Z) (pj : nat) : nat :=
  match fuel with
  | O => pj
  | Datatypes.S fuel' =>
      let pj' := Nat.pred pj in
      if (vp <? key tosort pj')%Z then scan_down fuel' tosort vp pj' else pj'
  end.

(** The [for (;;)] loop of a partition: scan from both ends, stop when the
    scans meet, otherwise exchange and go on. *)
Fixpoint partition_loop (fuel : nat) (tosort : list nat) (vp : Z)
    (pi pj : nat) : list nat * nat :=
  match fuel with
  | O => (tosort, pi)
  | Datatypes.S fuel' =>
      let pi' := scan_up (List.length tosort) tosort vp pi in
      let pj' := scan_down (List.length tosort) tosort vp pj in
      if pj' <=? pi' then (tosort, pi')
      else partition_loop fuel' (intp_swap tosort pi' pj') vp pi' pj'
  end.

(** The three conditional exchanges that leave the median of the first,
    the middle and the last key in the middle. *)
Definition median_of_three (tosort : list nat) (pl pm pr : nat) : list nat :=
  let t1 := if (key tosort pm <? key tosort pl)%Z
            then intp_swap tosort pm pl else tosort in
  let t2 := if (key t1 pr <? key t1 pm)%Z then intp_swap t1 pr pm else t1 in
  if (key t2 pm <? key t2 pl)%Z then intp_swap t2 pm pl else t2.

(** One partition of the segment [pl .. pr]; the result is the array and
    the place [pi] of the pivot. *)
Definition partition_segment (tosort : list nat) (pl pr : nat) : list nat * nat :=
  let pm := pl + (pr - pl) / 2 in
  let t := median_of_three tosort pl pm pr in
  let vp := key t pm in
  let pj := pr - 1 in
  let t := intp_swap t pm pj in
  let '(t, pi) := partition_loop (List.length t) t vp pl pj in
  (intp_swap t pi (pr - 1), pi).

(** [while ((pr - pl) > SMALL_QUICKSORT)]: partition, push the larger part
    with the depth left, go on with the smaller. *)
Fixpoint partitions (fuel : nat) (tosort : list nat) (pl pr : nat)
    (cdepth : Z) (stack : list (nat * nat * Z))
  : list nat * nat * nat * list (nat * nat * Z) :=
  match fuel with
  | O => (tosort, pl, pr, stack)
  | Datatypes.S fuel' =>
      if SMALL_QUICKSORT <? pr - pl then
        let '(t, pi) := partition_segment tosort pl pr in
        let cdepth' := (cdepth - 1)%Z in
        if pi - pl <? pr - pi
        then partitions fuel' t pl (pi - 1) cdepth'
                        ((pi + 1, pr, cdepth') :: stack)
        else partitions fuel' t (pi + 1) pr cdepth'
                        ((pl, pi - 1, cdepth') :: stack)
      else (tosort, pl, pr, stack)
  end.

(** [while (pj > pl && vp < key at pj - 1)]: move the offset at [pj - 1] one
    place up and step down. *)
Fixpoint shift_right (fuel : nat) (tosort : list nat) (pl : nat) (vp : Z)
    (pj : nat) : list nat * nat :=
  match fuel with
  | O => (tosort, pj)
  | Datatypes.S fuel' =>
      if (pl <? pj) && (vp <? key tosort (pj - 1))%Z
      then shift_right fuel' (<[pj := nth (pj - 1) tosort 0]> tosort) pl vp
                       (pj - 1)
      else (tosort, pj)
  end.

(** The insertion sort of the segment [pl .. pr]. *)
Definition insertion_sort (tosort : list nat) (pl pr : nat) : list nat :=
  fold_left
    (fun t pi =>
       let vi := nth pi t 0 in
       let '(t', pj) := shift_right (List.length t) t pl (nth vi v 0%Z) pi in
       <[pj := vi]> t')
    (seq (pl + 1) (pr - pl)) tosort.

(** [aheapsort] on the [n] places from [pl]: [a = tosort - 1], so that
    [a[1]] is the first of them. *)
Definition a_get (tosort : list nat) (pl k : nat) : nat :=
  nth (pl + k - 1) tosort 0.

Definition a_set (tosort : list nat) (pl k x : nat) : list nat :=
  <[pl + k - 1 := x]> tosort.

(** [for (i, j; j <= n;) { ... }]: let [tmp] sink from [i]. *)
Fixpoint sift (fuel : nat) (tosort : list nat) (pl n tmp i j : nat)
  : list nat * nat :=
  match fuel with
  | O => (tosort, i)
  | Datatypes.S fuel' =>
      if j <=? n then
        let j := if (j <? n) &&
                    (nth (a_get tosort pl j) v 0 <?
                     nth (a_get tosort pl (j + 1)) v 0)%Z
                 then j + 1 else j in
        if (nth tmp v 0 <? nth (a_get tosort pl j) v 0)%Z
        then sift fuel' (a_set tosort pl i (a_get tosort pl j)) pl n tmp j (j + j)
        else (tosort, i)
      else (tosort, i)
  end.

Definition aheapsort (tosort : list nat) (pl n : nat) : list nat :=
  let heap :=
    fold_left
      (fun t l =>
         let tmp := a_get t pl l in
         let '(t', i) := sift n t pl n tmp l (l + l) in
         a_set t' pl i tmp)
      (rev (seq 1 (n / 2))) tosort in
  fold_left
    (fun t m =>
       let tmp := a_get t pl m in
       let t := a_set t pl m (a_get t pl 1) in
       let '(t', i) := sift n t pl (m - 1) tmp 1 2 in
       a_set t' pl i tmp)
    (rev (seq 2 (n - 1))) heap.

(** The outer [while (1)]: sort the segment at hand, then pop the next one
    with its depth, until the stack is empty. *)
Fixpoint segments (fuel : nat) (tosort : list nat) (pl pr : nat) (cdepth : Z)
    (stack : list (nat * nat * Z)) : list nat :=
  match fuel with
  | O => tosort
  | Datatypes.S fuel' =>
      let '(t, stack') :=
        if (cdepth <? 0)%Z then (aheapsort tosort pl (pr - pl + 1), stack)
        else
          let '(t, pl', pr', stack') :=
            partitions (List.length tosort) tosort pl pr cdepth stack in
          (insertion_sort t pl' pr', stack') in
      match stack' with
      | [] => t
      | (pl', pr', cdepth') :: rest => segments fuel' t pl' pr' cdepth' rest
      end
  end.

(** [npy_get_msb(num) * 2] *)
Definition depth_limit (num : nat) : Z := (Z.log2 (Z.of_nat num) * 2)%Z.

Definition aquicksort : list nat :=
  let num := List.length v in
  segments (Datatypes.S num) (seq 0 num) 0 (num - 1) (depth_limit num) [].

End Argsort.

(** [nargsort(items, kind='quicksort', ascending=False)] on a column
    without missing values. *)
Definition nargsort_descending (items : list Z) : list nat :=
  let idx := seq 0 (List.length items) in
  let non_nans := rev items in
  let non_nan_idx := rev idx in
  let indexer := map (fun k => nth k non_nan_idx 0) (aquicksort non_nans) in
  rev indexer.

End NumpySort.

(* ===================================================================== *)
(** ** Concrete collaborators, for examples                              *)
(* ===================================================================== *)

Module Examples.

Definition item (author text : string) (likes : Z) : thread_item :=
  {| authorDisplayName := author; textDisplay := text;
     publishedAt := "2024-01-01T00:00:00Z"; likeCount := likes;
     totalReplyCount := 0 |}.

Definition some_video : video_item :=
  {| snippet_title := "A video"; snippet_channelTitle := "A channel";
     snippet_publishedAt := "2024-01-01T00:00:00Z";
     statistics_viewCount := Some 10%Z; statistics_likeCount := None;
     statistics_commentCount := Some 3%Z;
     contentDetails_duration := "PT1M" |}.

(** A page token that stands for an offset: that many characters. *)
Definition token_of (off : nat) : string :=
  string_of_list_ascii (repeat "x"%char off).

Definition offset_of (t : option string) : nat :=
  match t with
  | Some tok => String.length tok
  | None => 0
  end.

(** A server without state that holds the comments [avail] and answers with
    pages of at most [page] items. *)
Definition paged_threads (avail : list thread_item) (page : nat)
    (s : unit) (rq : threads_request) : threads_response * unit :=
  let off := offset_of (pageToken rq) in
  let k := Nat.min page (Z.to_nat (maxResults rq)) in
  let next := if off + k <? List.length avail
              then Some (token_of (off + k)) else None in
  (ThreadsPage (firstn k (skipn off avail)) next, s).

Definition one_video (s : unit) (id : string) : videos_response * unit :=
  (VideosOk [some_video], s).

Definition no_video (s : unit) (id : string) : videos_response * unit :=
  (VideosOk [], s).

(** A client whose state counts the requests for comment threads: the
    first is answered with one comment and a continuation token, every
    later one fails. *)
Definition flaky_threads (s : nat) (rq : threads_request)
  : threads_response * nat :=
  match s with
  | O => (ThreadsPage [item "ann" "great video loved it" 3] (Some "QURTSl9p"),
          1)
  | Datatypes.S _ => (ThreadsError, Datatypes.S s)
  end.

Definition flaky_videos (s : nat) (id : string) : videos_response * nat :=
  (VideosOk [some_video], s).

(** A scorer that looks at the first letter only. *)
Definition toy_scorer (text : string) : float * float :=
  match text with
  | String "g" _ => (0.5%float, 0.75%float)
  | String "t" _ => ((-1)%float, 1%float)
  | _ => (0%float, 0%float)
  end.

Definition toy_mean (l : list float) : float :=
  PrimFloat.div (fold_left PrimFloat.add l 0%float)
                (PrimFloat.of_uint63 (Uint63.of_Z (Z.of_nat (List.length l)))).

(** A sort by decreasing key that keeps equal keys in the order it meets
    them: insertion of the offsets, taken in the order [order]; with the
    offsets in fetch order it is the stable sort. *)
Definition argsort_from (order : list nat) (keys : list Z) : list nat :=
  sorted_desc (fun a b => (nth b keys 0 <=? nth a keys 0)%Z) order.

Definition argsort_stable (keys : list Z) : list nat :=
  argsort_from (seq 0 (List.length keys)) keys.

Definition three_comments : list thread_item :=
  [item "ann" "great video loved it" 2;
   item "bob" "terrible waste of time" 7;
   item "cat" "okay I guess" 7].

(** Eighteen comments: twelve without a like, then five with 5, 7, 7, 9
    and 12 likes, and a last one without. *)
Definition eighteen_comments : list thread_item :=
  [item "ann" "first" 0; item "bob" "nice" 0; item "cat" "good one" 0;
   item "dan" "thanks" 0; item "eve" "ok" 0; item "fay" "great" 0;
   item "gus" "too long" 0; item "hal" "nice" 0; item "ivy" "more please" 0;
   item "jon" "ok" 0; item "kim" "good" 0; item "lee" "thanks" 0;
   item "max" "great video" 5; item "ned" "great tips" 7;
   item "oda" "terrible sound" 7; item "pam" "good pace" 9;
   item "quy" "great editing" 12; item "ray" "ok" 0].

End Examples.

(* ===================================================================== *)
(** ** Further definitions: resolver, paginator                          *)
(* ===================================================================== *)

(** A video identifier: 11 characters of the alphabet. *)
Definition valid_id (t : string) : Prop :=
  String.length t = 11 /\
  forall c, In c (list_ascii_of_string t) -> in_alphabet c.

(** The value of [next_page_token] after the requests of a trace, [tok]
    being its value before them. *)
Fixpoint last_token (tok : option string) (tr : list event) : option string :=
  match tr with
  | [] => tok
  | EvThreads _ (ThreadsPage _ next) :: tr' => last_token next tr'
  | _ :: tr' => last_token tok tr'
  end.

Module MoreExamples.

(** A server that answers every request with an empty page and a
    continuation token. *)
Definition stalling_threads (s : unit) (rq : threads_request)
  : threads_response * unit :=
  (ThreadsPage [] (Some "again"), s).

(** A server that ignores [maxResults] and answers with all it has. *)
Definition generous_threads (avail : list thread_item) (s : unit)
    (rq : threads_request) : threads_response * unit :=
  (ThreadsPage avail None, s).

End MoreExamples.

(* ===================================================================== *)
(** ** Further definitions: aggregator                                   *)
(* ===================================================================== *)

(** The comment with its text put in lowercase. *)
Definition lower_text (c : comment) : comment :=
  match c !! "text" with
  | Some (VStr text) => <["text" := VStr (Chars.lower text)]> c
  | _ => c
  end.

(** A string a token can be: lowercase letters only, long enough. *)
Definition token_shaped (min_length : nat) (w : string) : Prop :=
  min_length <= String.length w /\
  forall c, In c (list_ascii_of_string w) -> Chars.is_lower c = true.

(* ===================================================================== *)
(** ** Further definitions: report                                       *)
(* ===================================================================== *)

(** The comment carries the sentiment label [l]. *)
Definition has_label (l : string) (c : comment) : bool :=
  match c !! "sentiment" with
  | Some (VStr s) => String.eqb s l
  | _ => false
  end.

(** How many comments carry the sentiment label [l]. *)
Definition labelled (l : string) (rows : list comment) : nat :=
  List.length (List.filter (has_label l) rows).

(* ===================================================================== *)
(** ** The comment scrapper: [save_video_comments_to_csv]                *)
(* ===================================================================== *)

(** The functions of [YoutubeCommentScrapper-checkpoint.py].  The client is
    the module-level [youtube]; what reaches the user is a file written by
    [csv.writer] (its name and the rows handed to [writerows], header
    first) or a message shown by [st.error].  The client is taken to have
    been built, and writing the file to succeed. *)
Module Scrapper.

(** The keyword arguments of [commentThreads().list] that vary here: no
    [maxResults] is given, and the first request has no [pageToken]. *)
Record page_request : Type := {
  rq_videoId : string;
  rq_pageToken : option string
}.

Inductive effect : Type :=
  | WriteCsv (filename : string) (rows : list (list string))
  | StError.

(** [[username, comment]] for one item. *)
Definition row_of_item (item : thread_item) : list string :=
  [authorDisplayName item; textDisplay item].

Definition header : list string := ["Username"; "Comment"].

(** The rows of the pages a trace was answered with. *)
Fixpoint rows_of (tr : list (page_request * threads_response))
  : list (list string) :=
  match tr with
  | [] => []
  | (_, ThreadsPage items _) :: tr' => map row_of_item items ++ rows_of tr'
  | (_, ThreadsError) :: tr' => rows_of tr'
  end.

(** No request of the trace failed. *)
Definition answered (tr : list (page_request * threads_response)) : Prop :=
  forall rq resp, In (rq, resp) tr -> resp <> ThreadsError.

Section Client.

Variable S : Type.
Variable threads_list : S -> page_request -> threads_response * S.

(** The [while results:] loop, entered with the answer [results] to the
    request before: its rows are appended, and the next page is asked for
    when the answer has the key [nextPageToken], whatever its value. *)
Fixpoint pages (fuel : nat) (video_id : string)
    (results : list thread_item * option string)
    (comments : list (list string)) (s : S)
  : run (list (list string)) * list (page_request * threads_response) * S :=
  match fuel with
  | O => (Fuel, [], s)
  | Datatypes.S fuel' =>
      let '(items, next) := results in
      let comments' := comments ++ map row_of_item items in
      match next with
      | Some nextPage =>
          let rq := {| rq_videoId := video_id; rq_pageToken := Some nextPage |} in
          let '(response, s') := threads_list s rq in
          match response with
          | ThreadsError => (Exn HttpError, [(rq, response)], s')
          | ThreadsPage items' next' =>
              let '(r, tr, s'') :=
                pages fuel' video_id (items', next') comments' s' in
              (r, (rq, response) :: tr, s'')
          end
      | None => (Ret comments', [], s)
      end
  end.

(** [save_video_comments_to_csv(video_id)]: the file name, or [None] after
    [except HttpError]. *)
Definition save_video_comments_to_csv (fuel : nat) (video_id : string) (s : S)
  : run (option string) * list effect
    * list (page_request * threads_response) * S :=
  let rq := {| rq_videoId := video_id; rq_pageToken := None |} in
  let '(response, s1) := threads_list s rq in
  match response with
  | ThreadsError => (Ret None, [StError], [(rq, response)], s1)
  | ThreadsPage items next =>
      let '(r, tr, s2) := pages fuel video_id (items, next) [] s1 in
      let tr := (rq, response) :: tr in
      match r with
      | Ret comments =>
          let filename := String.append video_id ".csv" in
          (Ret (Some filename), [WriteCsv filename (header :: comments)], tr, s2)
      | Exn HttpError => (Ret None, [StError], tr, s2)
      | Exn e => (Exn e, [], tr, s2)
      | Fuel => (Fuel, [], tr, s2)
      end
  end.

End Client.

Arguments pages {S} threads_list fuel video_id results comments s.
Arguments save_video_comments_to_csv {S} threads_list fuel video_id s.

(** A client that answers the first request with one comment and the token
    [tok], the second with one comment and no token; and one whose second
    answer is a failure. *)
Definition two_pages (tok : string) (s : nat) (rq : page_request)
  : threads_response * nat :=
  match s with
  | O => (ThreadsPage [Examples.item "ann" "first" 1] (Some tok), 1)
  | Datatypes.S _ => (ThreadsPage [Examples.item "bob" "second" 2] None,
                      Datatypes.S s)
  end.

Definition page_then_failure (s : nat) (rq : page_request)
  : threads_response * nat :=
  match s with
  | O => (ThreadsPage [Examples.item "ann" "first" 1] (Some "next"), 1)
  | Datatypes.S _ => (ThreadsError, Datatypes.S s)
  end.

End Scrapper.
(* ===================================================================== *)
(** ** Properties of the Video Resolver                                  *)
(* ===================================================================== *)

Section ResolverFacts.

Local Notation "a +++ b" := (String.append a b) (at level 60, right associativity).

Lemma is_id_char_existsb (c : ascii) :
  Chars.is_id_char c =
  existsb (Ascii.eqb c) (list_ascii_of_string id_alphabet).
Proof. destruct c as [[] [] [] [] [] [] [] []]; reflexivity. Qed.

Lemma is_id_char_alphabet (c : ascii) :
  Chars.is_id_char c = true <-> in_alphabet c.
Proof.
  rewrite is_id_char_existsb. unfold in_alphabet. rewrite existsb_exists.
  split.
  - intros [x [Hin Heq]]. apply Ascii.eqb_eq in Heq. now subst.
  - intros Hin. exists c. split; [exact Hin | apply Ascii.eqb_refl].
Qed.

Lemma id_run_spec (n : nat) (s t : string) :
  id_run n s = Some t <->
  exists post, s = t +++ post /\ String.length t = n /\
               (forall c, In c (list_ascii_of_string t) -> in_alphabet c).
Proof.
  revert s t. induction n as [|n IH]; intros s t; simpl.
  - split.
    + intros [= <-]. exists s. simpl. repeat split; tauto.
    + intros [post [_ [Hlen _]]]. destruct t; [reflexivity | discriminate].
  - destruct s as [|c r].
    + split; [discriminate|].
      intros [post [Heq [Hlen _]]]. destruct t; discriminate.
    + destruct (Chars.is_id_char c) eqn:Hc.
      * destruct (id_run n r) as [u|] eqn:Hr.
        -- apply IH in Hr. destruct Hr as [post [-> [Hlen Hall]]].
           split.
           ++ intros [= <-]. exists post. simpl. repeat split; [congruence|].
              intros x [<-|Hx]; [now apply is_id_char_alphabet | auto].
           ++ intros [post' [Heq [Hlen' Hall']]].
              destruct t as [|c' t']; [discriminate|].
              simpl in Heq. injection Heq as <- Heq.
              simpl in Hlen'. injection Hlen' as Hlen'.
              assert (Hu : id_run n (u +++ post) = Some t').
              { apply IH. exists post'. repeat split; auto.
                intros x Hx. apply Hall'. simpl. now right. }
              assert (Hu' : id_run n (u +++ post) = Some u).
              { apply IH. exists post. repeat split; auto. }
              congruence.
        -- split; [discriminate|].
           intros [post' [Heq [Hlen' Hall']]].
           destruct t as [|c' t']; [discriminate|].
           simpl in Heq. injection Heq as <- Heq.
           simpl in Hlen'. injection Hlen' as Hlen'.
           assert (Hu : id_run n r = Some t').
           { apply IH. exists post'. repeat split; auto.
             intros x Hx. apply Hall'. simpl. now right. }
           congruence.
      * split; [discriminate|].
        intros [post' [Heq [Hlen' Hall']]].
        destruct t as [|c' t']; [discriminate|].
        simpl in Heq. injection Heq as <- Heq.
        assert (Hin : in_alphabet c) by (apply Hall'; simpl; now left).
        apply is_id_char_alphabet in Hin. congruence.
Qed.

Lemma id_token_at_nil (i : nat) (tok : string) : ~ id_token_at EmptyString i tok.
Proof.
  intros [pre [marker [post [Heq [_ [Hm _]]]]]].
  destruct pre; [|discriminate]. simpl in Heq.
  destruct Hm as [-> | ->]; discriminate.
Qed.

Lemma id_token_at_shift (c : ascii) (r : string) (j : nat) (tok : string) :
  id_token_at (String c r) (S j) tok <-> id_token_at r j tok.
Proof.
  split.
  - intros [pre [marker [post [Heq [Hlen H]]]]].
    destruct pre as [|c' pre]; [discriminate|].
    simpl in Heq. injection Heq as <- Heq. simpl in Hlen. injection Hlen as Hlen.
    exists pre, marker, post. tauto.
  - intros [pre [marker [post [Heq [Hlen H]]]]].
    exists (String c pre), marker, post. simpl. subst. tauto.
Qed.

Lemma match_here_spec (s tok : string) :
  match_here s = Some tok <-> id_token_at s 0 tok.
Proof.
  split.
  - unfold match_here. intros H.
    assert (Hcase : (exists r, s = "v=" +++ r /\ id_run 11 r = Some tok) \/
                    (exists r, s = "/" +++ r /\ id_run 11 r = Some tok)).
    { destruct s as [|a s1]; [discriminate|].
      destruct (Ascii.eqb_spec a "v") as [->|Hv].
      - destruct s1 as [|b s2]; [discriminate|].
        destruct (Ascii.eqb_spec b "=") as [->|Hb].
        + destruct (id_run 11 s2) eqn:E; [|discriminate].
          left. exists s2. split; [reflexivity | congruence].
        + exfalso.
          destruct b as [[] [] [] [] [] [] [] []]; try discriminate; now apply Hb.
      - destruct (Ascii.eqb_spec a "/") as [->|Hs].
        + right. exists s1. split; [reflexivity | exact H].
        + exfalso.
          destruct a as [[] [] [] [] [] [] [] []];
            try discriminate; try (now apply Hv); try (now apply Hs);
            destruct s1 as [|b s2]; try discriminate;
            destruct b as [[] [] [] [] [] [] [] []]; discriminate. }
    destruct Hcase as [[r [-> Hr]] | [r [-> Hr]]];
      apply id_run_spec in Hr; destruct Hr as [post [-> [Hlen Hall]]].
    + exists EmptyString, "v=", post. simpl. tauto.
    + exists EmptyString, "/", post. simpl. tauto.
  - intros [pre [marker [post [Heq [Hlen [Hm [Htl Hall]]]]]]].
    destruct pre; [|discriminate]. simpl in Heq.
    assert (Hr : id_run 11 (tok +++ post) = Some tok).
    { apply id_run_spec. exists post. tauto. }
    destruct Hm as [-> | ->]; subst s; unfold match_here.
    + change ("" +++ "v=" +++ tok +++ post)
        with (String "v" (String "=" (tok +++ post))).
      cbv beta iota. now rewrite Hr.
    + change ("" +++ "/" +++ tok +++ post) with (String "/" (tok +++ post)).
      cbv beta iota. exact Hr.
Qed.

Lemma re_search_spec (s tok : string) :
  re_search s = Some tok <->
  exists i, id_token_at s i tok /\
            forall j tok', j < i -> ~ id_token_at s j tok'.
Proof.
  revert tok. induction s as [|c r IH]; intros tok.
  - simpl. split; [discriminate|].
    intros [i [H _]]. now apply id_token_at_nil in H.
  - cbn [re_search]. destruct (match_here (String c r)) as [t|] eqn:Hm.
    + split.
      * intros [= <-]. exists 0. split; [now apply match_here_spec | lia].
      * intros [i [Hi Hmin]]. destruct i as [|i].
        -- apply match_here_spec in Hi. congruence.
        -- exfalso. apply (Hmin 0 t); [lia | now apply match_here_spec].
    + rewrite IH. split.
      * intros [i [Hi Hmin]]. exists (S i). split; [now apply id_token_at_shift|].
        intros j tok' Hj Hat. destruct j as [|j].
        -- apply match_here_spec in Hat. congruence.
        -- apply id_token_at_shift in Hat. apply (Hmin j tok'); [lia | exact Hat].
      * intros [i [Hi Hmin]]. destruct i as [|i].
        -- apply match_here_spec in Hi. congruence.
        -- exists i. split; [now apply id_token_at_shift in Hi|].
           intros j tok' Hj Hat. apply (Hmin (S j) tok'); [lia|].
           now apply id_token_at_shift.
Qed.

Lemma re_search_none (s : string) :
  re_search s = None <-> forall i tok, ~ id_token_at s i tok.
Proof.
  induction s as [|c r IH].
  - simpl. split; [intros _ i tok; apply id_token_at_nil | reflexivity].
  - cbn [re_search]. destruct (match_here (String c r)) as [t|] eqn:Hm.
    + split; [discriminate|]. intros H. exfalso.
      apply (H 0 t). now apply match_here_spec.
    + rewrite IH. split.
      * intros H [|i] tok Hat.
        -- apply match_here_spec in Hat. congruence.
        -- apply id_token_at_shift in Hat. now apply (H i tok).
      * intros H i tok Hat. apply (H (S i) tok). now apply id_token_at_shift.
Qed.

End ResolverFacts.

Example extract_video_id_watch :
  extract_video_id "https://www.youtube.com/watch?v=dQw4w9WgXcQ&t=42s" = Some "dQw4w9WgXcQ".
Proof. reflexivity. Qed.

Example extract_video_id_short :
  extract_video_id "https://youtu.be/dQw4w9WgXcQ" = Some "dQw4w9WgXcQ".
Proof. reflexivity. Qed.

Example extract_video_id_long_run :
  extract_video_id "/abcdefghijkl" = Some "abcdefghijk".
Proof. reflexivity. Qed.

Example extract_video_id_none :
  extract_video_id "not a url" = None.
Proof. reflexivity. Qed.

(** C7.  [extract_video_id] returns the first run of exactly 11 characters of
    [{A-Z, a-z, 0-9, -, _}] that immediately follows a [v=] marker or a [/]
    separator (the leftmost offset at which there is one), whatever
    surrounds it, and returns [None] exactly when the URL holds no such
    run. *)
Theorem extract_video_id_first_token (url : string) :
  (forall tok, extract_video_id url = Some tok <->
     exists i, id_token_at url i tok /\
               forall j tok', j < i -> ~ id_token_at url j tok') /\
  (extract_video_id url = None <-> forall i tok, ~ id_token_at url i tok).
Proof.
  unfold extract_video_id. split.
  - intros tok. rewrite <- re_search_spec.
    destruct (re_search url); tauto.
  - rewrite <- re_search_none. destruct (re_search url); split; congruence.
Qed.


(* ===================================================================== *)
(** ** Properties of the Comment Paginator                               *)
(* ===================================================================== *)

Section PaginatorFacts.

Variable S : Type.
Variable threads_list : S -> threads_request -> threads_response * S.

Lemma no_failure_nil : no_failure [].
Proof. intros e []. Qed.

Lemma no_failure_cons (e : event) (tr : list event) :
  is_failure e = false -> no_failure tr -> no_failure (e :: tr).
Proof. intros He Htr x [<-|Hx]; auto. Qed.

(** Every run of the loop, bounded or not, ends in one of three ways, and
    the trace tells which: a failure is the last request of a run that
    raises, and a run that returns or is cut short met none. *)
Lemma fetch_loop_cases (fuel : nat) (video_id : string) (max_comments : Z) :
  forall tok count comments s r tr s',
    fetch_loop threads_list fuel video_id max_comments tok count comments s
      = (r, tr, s') ->
    (r = Exn HttpError /\
     exists tr0 rq, tr = tr0 ++ [EvThreads rq ThreadsError] /\ no_failure tr0) \/
    ((r = Fuel \/ r = Ret (comments ++ accumulated tr)) /\ no_failure tr).
Proof.
  induction fuel as [|fuel IH]; intros tok count comments s r tr s' H;
    cbn [fetch_loop] in H; destruct (count <? max_comments)%Z.
  - injection H as <- <- <-. right. split; [now left | apply no_failure_nil].
  - injection H as <- <- <-. right. rewrite app_nil_r.
    split; [now right | apply no_failure_nil].
  - destruct (threads_list s _) as [[|items next] s1] eqn:Hcall.
    + injection H as <- <- <-. left. split; [reflexivity|].
      eexists [], _. split; [reflexivity | apply no_failure_nil].
    + destruct (negb (truthy next) || _).
      * injection H as <- <- <-. right. cbn [accumulated]. rewrite app_nil_r.
        split; [now right|]. apply no_failure_cons; [reflexivity | apply no_failure_nil].
      * destruct (fetch_loop _ fuel _ _ _ _ _ _) as [[r1 tr1] s2] eqn:Hrec.
        injection H as <- <- <-. apply IH in Hrec.
        destruct Hrec as [[-> [tr0 [rq [-> Hok]]]] | [Hr Hok]].
        -- left. split; [reflexivity|].
           eexists (_ :: tr0), rq. split; [reflexivity|].
           apply no_failure_cons; [reflexivity | exact Hok].
        -- right. split.
           ++ destruct Hr as [-> | ->]; [now left | right].
              cbn [accumulated]. now rewrite app_assoc.
           ++ apply no_failure_cons; [reflexivity | exact Hok].
  - injection H as <- <- <-. right. rewrite app_nil_r.
    split; [now right | apply no_failure_nil].
Qed.

Lemma no_failure_app_failure (tr0 : list event) (rq : threads_request) :
  ~ no_failure (tr0 ++ [EvThreads rq ThreadsError]).
Proof.
  intros H. specialize (H (EvThreads rq ThreadsError)).
  rewrite in_app_iff in H. simpl in H. discriminate H. right. now left.
Qed.

(** With the paging contract the loop ends within [max_comments -
    comment_count] requests, and without a failure it has then collected
    the first [max_comments] comments of the video. *)
Lemma fetch_loop_serves (video_id : string) (avail : list thread_item)
    (offset : option string -> nat) (max_comments : Z) :
  serves threads_list video_id avail offset ->
  forall fuel tok count comments s,
    count = Z.of_nat (offset tok) ->
    (count < max_comments)%Z ->
    comments = map comment_of_item (firstn (offset tok) avail) ->
    Z.to_nat (max_comments - count) <= fuel ->
    exists r tr s',
      fetch_loop threads_list fuel video_id max_comments tok count comments s
        = (r, tr, s') /\
      (r = Exn HttpError \/
       r = Ret (map comment_of_item (firstn (Z.to_nat max_comments) avail))).
Proof.
  intros [Hnone Hserve].
  induction fuel as [|fuel IH]; intros tok count comments s Hcount Hlt Hcs Hfuel.
  - lia.
  - cbn [fetch_loop]. destruct (Z.ltb_spec count max_comments) as [_|]; [|lia].
    set (rq := {| videoId := video_id;
                  maxResults := Z.min 100 (max_comments - count);
                  pageToken := tok |}).
    specialize (Hserve s rq eq_refl). cbn [maxResults pageToken rq] in Hserve.
    destruct (threads_list s rq) as [[|items next] s1] eqn:Hcall.
    + eexists _, _, _. split; [reflexivity | now left].
    + cbn [fst] in Hserve.
      destruct Hserve as [Hitems [Hsize [Hprogress Hnext]]]; [lia|].
      set (k := List.length items) in *.
      assert (Hacc : comments ++ map comment_of_item items
                     = map comment_of_item (firstn (offset tok + k) avail)).
      { rewrite Hcs, Hitems, <- map_app. f_equal.
        apply (take_take_drop avail (offset tok) k). }
      destruct (truthy next) eqn:Htruthy; cbn [negb orb].
      * destruct Hnext as [Hoff Hmore].
        destruct (Z.geb_spec (count + Z.of_nat k) max_comments) as [Hge|Hless].
        -- eexists _, _, _. split; [reflexivity | right].
           rewrite Hacc. do 3 f_equal. lia.
        -- assert (Hk : k <> 0).
           { intros Hk0. apply Hprogress; [lia|].
             now apply length_zero_iff_nil. }
           destruct (IH next (count + Z.of_nat k)%Z
                        (comments ++ map comment_of_item items) s1)
             as [r [tr [s2 [Hrec Hres]]]]; try lia.
           { now rewrite Hoff, Hacc. }
           rewrite Hrec. eexists _, _, _. split; [reflexivity | exact Hres].
      * eexists _, _, _. split; [reflexivity | right].
        rewrite Hacc. f_equal.
        rewrite !firstn_all2; [reflexivity | lia | lia].
Qed.

(** Every request of the trace was sent to the API, and the answer listed
    with it is the answer the API gave. *)
Lemma fetch_loop_answers (fuel : nat) (video_id : string) (max_comments : Z) :
  forall tok count comments s r tr s',
    fetch_loop threads_list fuel video_id max_comments tok count comments s
      = (r, tr, s') ->
    forall e, In e tr ->
      exists s0 rq, e = EvThreads rq (fst (threads_list s0 rq)).
Proof.
  induction fuel as [|fuel IH]; intros tok count comments s r tr s' H;
    cbn [fetch_loop] in H; destruct (count <? max_comments)%Z;
    try (injection H as <- <- <-; intros e []).
  destruct (threads_list s _) as [[|items next] s1] eqn:Hcall.
  - injection H as <- <- <-. intros e [<-|[]].
    eexists s, _. now rewrite Hcall.
  - destruct (negb (truthy next) || _).
    + injection H as <- <- <-. intros e [<-|[]].
      eexists s, _. now rewrite Hcall.
    + destruct (fetch_loop _ fuel _ _ _ _ _ _) as [[r1 tr1] s2] eqn:Hrec.
      injection H as <- <- <-. intros e [<-|Hin].
      * eexists s, _. now rewrite Hcall.
      * exact (IH _ _ _ _ _ _ _ Hrec e Hin).
Qed.

Lemma get_comments_answers (fuel : nat) (video_id : string) (max_comments : Z)
    (s : S) (r : run (list comment)) (tr : list event) (s' : S) :
  get_comments threads_list fuel video_id max_comments s = (r, tr, s') ->
  forall e, In e tr ->
    exists s0 rq, e = EvThreads rq (fst (threads_list s0 rq)).
Proof.
  unfold get_comments.
  destruct (fetch_loop threads_list fuel video_id max_comments None 0 [] s)
    as [[r1 tr1] s1] eqn:Hloop.
  intros Hrun.
  assert (tr1 = tr) by (destruct r1 as [|[]|]; congruence). subst tr1.
  exact (fetch_loop_answers _ _ _ _ _ _ _ _ _ _ Hloop).
Qed.

End PaginatorFacts.

Section PagedServer.

Import Examples.

Lemma token_of_length (n : nat) : String.length (token_of n) = n.
Proof.
  unfold token_of. induction n as [|n IH]; simpl; [reflexivity | now rewrite IH].
Qed.

Lemma token_of_truthy (n : nat) : n <> 0 -> truthy (Some (token_of n)) = true.
Proof. destruct n; [congruence | reflexivity]. Qed.

Lemma paged_threads_serves (video_id : string) (avail : list thread_item)
    (page : nat) :
  1 <= page ->
  serves (paged_threads avail page) video_id avail offset_of.
Proof.
  intros Hpage. split; [reflexivity|].
  intros s rq _ Hmax. unfold paged_threads. cbn [fst].
  set (off := offset_of (pageToken rq)).
  set (k := Nat.min page (Z.to_nat (maxResults rq))).
  assert (Hk : 1 <= k) by (unfold k; lia).
  assert (Hlen : List.length (firstn k (skipn off avail))
                 = Nat.min k (List.length avail - off)).
  { now rewrite length_firstn, length_skipn. }
  cbv zeta. rewrite Hlen. repeat split.
  - destruct (Nat.le_ge_cases k (List.length avail - off)) as [Hle|Hge].
    + now rewrite Nat.min_l.
    + rewrite Nat.min_r by exact Hge.
      rewrite !firstn_all2; [reflexivity | | ]; rewrite length_skipn; lia.
  - unfold k. lia.
  - intros Hoff Hnil. apply (f_equal (@List.length _)) in Hnil.
    rewrite Hlen in Hnil. simpl in Hnil. lia.
  - destruct (Nat.ltb_spec (off + k) (List.length avail)) as [Hlt|Hge].
    + rewrite token_of_truthy by lia. cbn [offset_of].
      rewrite token_of_length. lia.
    + cbn [truthy]. lia.
Qed.

End PagedServer.

(** C10.  For every video id and every [max_comments <= 0], [get_comments]
    returns the empty sequence and sends no request: the loop is never
    entered, whatever bound is put on its iterations. *)
Theorem get_comments_nonpositive_max
    (S : Type) (threads_list : S -> threads_request -> threads_response * S)
    (fuel : nat) (video_id : string) (max_comments : Z) (s : S) :
  (max_comments <= 0)%Z ->
  get_comments threads_list fuel video_id max_comments s = (Ret [], [], s).
Proof.
  intros Hmax. unfold get_comments.
  assert (Hloop : fetch_loop threads_list fuel video_id max_comments None 0 [] s
                  = (Ret [], [], s)).
  { destruct fuel; cbn [fetch_loop];
      destruct (Z.ltb_spec 0 max_comments); (lia || reflexivity). }
  now rewrite Hloop.
Qed.

Lemma get_comments_nonpositive_max_witness :
  get_comments Examples.flaky_threads 0 "dQw4w9WgXcQ" (-3) 0 = (Ret [], [], 0).
Proof.
  apply (get_comments_nonpositive_max nat Examples.flaky_threads 0
           "dQw4w9WgXcQ" (-3) 0).
  lia.
Defined.

(** C1 (as the code has it).  When a request for a page of comments fails,
    be it the first or a later one, [get_comments] returns the empty
    sequence: the comments of the pages fetched before are dropped.  The
    failed request is the last one sent. *)
Theorem get_comments_failure_returns_empty
    (S : Type) (threads_list : S -> threads_request -> threads_response * S)
    (fuel : nat) (video_id : string) (max_comments : Z) (s : S)
    (r : run (list comment)) (tr : list event) (s' : S) :
  get_comments threads_list fuel video_id max_comments s = (r, tr, s') ->
  (exists e, In e tr /\ is_failure e = true) ->
  r = Ret [] /\
  exists tr0 rq, tr = tr0 ++ [EvThreads rq ThreadsError] /\ no_failure tr0.
Proof.
  unfold get_comments. intros Hrun [e [Hin Hfail]].
  destruct (fetch_loop threads_list fuel video_id max_comments None 0 [] s)
    as [[r1 tr1] s1] eqn:Hloop.
  apply fetch_loop_cases in Hloop.
  destruct Hloop as [[-> Htrace] | [_ Hok]].
  - injection Hrun as <- <- <-. split; [reflexivity | exact Htrace].
  - assert (tr1 = tr) by (destruct r1 as [|[]|]; congruence). subst tr1.
    apply Hok in Hin. congruence.
Qed.

Lemma get_comments_failure_returns_empty_witness :
  exists tr s',
    get_comments Examples.flaky_threads 5 "dQw4w9WgXcQ" 10 0 = (Ret [], tr, s') /\
    exists tr0 rq, tr = tr0 ++ [EvThreads rq ThreadsError] /\ no_failure tr0.
Proof.
  eexists _, _. split; [reflexivity|].
  eapply (get_comments_failure_returns_empty nat Examples.flaky_threads 5
            "dQw4w9WgXcQ" 10 0).
  - reflexivity.
  - eexists. split; [right; left; reflexivity | reflexivity].
Defined.

(** C1 (as stated) fails: a first page with one comment is answered, the
    second request fails, and the comment of the first page is not
    returned. *)
Lemma get_comments_drops_fetched_pages :
  let '(r, tr, _) :=
    get_comments Examples.flaky_threads 5 "dQw4w9WgXcQ" 10 0 in
  (exists rq1 items next rq2,
      tr = [EvThreads rq1 (ThreadsPage items next); EvThreads rq2 ThreadsError]) /\
  accumulated tr
    = [comment_of_item (Examples.item "ann" "great video loved it" 3)] /\
  r = Ret [] /\
  r <> Ret (accumulated tr).
Proof.
  cbv beta iota delta [get_comments fetch_loop Examples.flaky_threads].
  cbn -[comment_of_item]. repeat split.
  - eexists _, _, _, _. reflexivity.
  - discriminate.
Qed.

(** C4.  Against an API that serves the top-level comments of the video in
    pages, and for a positive [max_comments = N], [get_comments] returns
    within [N] requests a sequence of length at most [N].  The requests it
    lists are the requests it sent, each with the answer of the API; when
    none of them failed, and so whenever the API fails no request, the
    result is the first [N] comments of the video in order: its length is
    [min (available, N)], and exactly [N] when at least [N] are
    available. *)
Theorem get_comments_length
    (S : Type) (threads_list : S -> threads_request -> threads_response * S)
    (video_id : string) (avail : list thread_item)
    (offset : option string -> nat)
    (fuel : nat) (max_comments : Z) (s : S) :
  serves threads_list video_id avail offset ->
  (0 < max_comments)%Z ->
  Z.to_nat max_comments <= fuel ->
  exists cs tr s',
    get_comments threads_list fuel video_id max_comments s = (Ret cs, tr, s') /\
    (Z.of_nat (List.length cs) <= max_comments)%Z /\
    (forall e, In e tr ->
       exists s0 rq, e = EvThreads rq (fst (threads_list s0 rq))) /\
    ((forall s0 rq, fst (threads_list s0 rq) <> ThreadsError) \/ no_failure tr ->
       cs = map comment_of_item (firstn (Z.to_nat max_comments) avail) /\
       List.length cs = Nat.min (List.length avail) (Z.to_nat max_comments) /\
       (Z.to_nat max_comments <= List.length avail ->
        Z.of_nat (List.length cs) = max_comments)).
Proof.
  intros Hserves Hpos Hfuel.
  destruct (fetch_loop_serves S threads_list video_id avail offset max_comments
              Hserves fuel None 0%Z [] s) as [r [tr [s' [Hloop Hres]]]].
  - destruct Hserves as [-> _]. reflexivity.
  - exact Hpos.
  - destruct Hserves as [-> _]. reflexivity.
  - rewrite Z.sub_0_r. exact Hfuel.
  - pose proof (fetch_loop_answers S threads_list _ _ _ _ _ _ _ _ _ _ Hloop)
      as Hanswers.
    unfold get_comments. rewrite Hloop.
    pose proof (fetch_loop_cases S threads_list _ _ _ _ _ _ _ _ _ _ Hloop) as Hcases.
    destruct Hres as [-> | ->].
    + exists [], tr, s'. split; [reflexivity|]. split; [simpl; lia|].
      split; [exact Hanswers|].
      intros Hok. exfalso.
      destruct Hcases as [[_ [tr0 [rq [-> _]]]] | [[|] _]]; try discriminate.
      destruct Hok as [Hapi | Hok].
      * destruct (Hanswers (EvThreads rq ThreadsError)) as [s0 [rq0 He]].
        { apply in_or_app. right. now left. }
        injection He as _ He. symmetry in He. exact (Hapi _ _ He).
      * now apply no_failure_app_failure in Hok.
    + eexists _, tr, s'. split; [reflexivity|].
      assert (Hlen : List.length (map comment_of_item
                                    (firstn (Z.to_nat max_comments) avail))
                     = Nat.min (List.length avail) (Z.to_nat max_comments)).
      { rewrite length_map, length_firstn. lia. }
      rewrite Hlen. split; [lia|]. split; [exact Hanswers|].
      intros _. split; [reflexivity|]. split; [reflexivity | lia].
Qed.

Lemma get_comments_length_witness :
  exists tr s',
    get_comments (Examples.paged_threads Examples.three_comments 1) 2
                 "dQw4w9WgXcQ" 2 tt
    = (Ret (map comment_of_item (firstn 2 Examples.three_comments)), tr, s').
Proof.
  destruct (get_comments_length unit
              (Examples.paged_threads Examples.three_comments 1)
              "dQw4w9WgXcQ" Examples.three_comments Examples.offset_of 2 2 tt)
    as [cs [tr [s' [Hrun [_ [_ Hall]]]]]].
  - apply paged_threads_serves. lia.
  - lia.
  - simpl. lia.
  - exists tr, s'. rewrite Hrun.
    destruct Hall as [-> _]; [|reflexivity].
    left. intros s0 rq. discriminate.
Defined.

(* ===================================================================== *)
(** ** Properties of the Sentiment Annotator                             *)
(* ===================================================================== *)

Section LabelFacts.

Lemma neg_threshold_sf :
  Prim2SF neg_threshold = S754_finite true 7205759403792794 (-56).
Proof. vm_compute. reflexivity. Qed.

Lemma pos_threshold_sf :
  Prim2SF pos_threshold = S754_finite false 7205759403792794 (-56).
Proof. vm_compute. reflexivity. Qed.

(** A polarity below [-0.1] is not above [0.1]. *)
Lemma below_neg_not_above_pos (p : float) :
  PrimFloat.ltb p neg_threshold = true -> PrimFloat.ltb pos_threshold p = false.
Proof.
  rewrite !ltb_spec, neg_threshold_sf, pos_threshold_sf.
  unfold SFltb, SFcompare.
  destruct (Prim2SF p) as [[]|[]| |[] m e]; congruence.
Qed.

Lemma sentiment_label_spec (p : float) :
  (sentiment_label p = "positive" <-> PrimFloat.ltb pos_threshold p = true) /\
  (sentiment_label p = "negative" <-> PrimFloat.ltb p neg_threshold = true) /\
  (sentiment_label p = "neutral" <->
     PrimFloat.ltb pos_threshold p = false /\
     PrimFloat.ltb p neg_threshold = false).
Proof.
  pose proof (below_neg_not_above_pos p) as Hexcl.
  unfold sentiment_label.
  destruct (PrimFloat.ltb pos_threshold p) eqn:Hpos;
    destruct (PrimFloat.ltb p neg_threshold) eqn:Hneg;
    repeat split; intros; try discriminate; try reflexivity;
    try (specialize (Hexcl eq_refl); discriminate);
    try (destruct H; discriminate).
Qed.

Lemma sentiment_label_boundaries :
  sentiment_label 0.1%float = "neutral" /\
  sentiment_label (-0.1)%float = "neutral" /\
  sentiment_label 0.10001%float = "positive" /\
  sentiment_label (-0.10001)%float = "negative".
Proof. vm_compute. repeat split. Qed.

End LabelFacts.

Section AnnotatorFacts.

Variable scorer : string -> float * float.

Lemma annotate_text (c : comment) (text : string) :
  c !! "text" = Some (VStr text) ->
  annotate scorer c = inr (annotated_with scorer text c).
Proof.
  intros Htext. unfold annotate. rewrite Htext. cbv zeta.
  rewrite lookup_insert_ne by discriminate.
  now rewrite lookup_insert_eq.
Qed.

Lemma annotate_inr (c c' : comment) :
  annotate scorer c = inr c' ->
  exists text, c !! "text" = Some (VStr text) /\ c' = annotated_with scorer text c.
Proof.
  intros H. destruct (c !! "text") as [[text| |]|] eqn:Htext;
    try (unfold annotate in H; rewrite Htext in H; discriminate).
  exists text. split; [reflexivity|].
  rewrite (annotate_text c text Htext) in H. congruence.
Qed.

Lemma annotate_no_text (c : comment) :
  c !! "text" = None -> annotate scorer c = inl (KeyError "text").
Proof. intros H. unfold annotate. now rewrite H. Qed.

Lemma annotated_with_lookup (text : string) (c : comment) :
  annotated_with scorer text c !! "polarity" = Some (VFloat (fst (scorer text))) /\
  annotated_with scorer text c !! "subjectivity" = Some (VFloat (snd (scorer text))) /\
  annotated_with scorer text c !! "sentiment"
    = Some (VStr (sentiment_label (fst (scorer text)))) /\
  (forall k, ~ annotation_key k -> annotated_with scorer text c !! k = c !! k).
Proof.
  unfold annotated_with, annotation_key. repeat split.
  - rewrite !lookup_insert_ne by discriminate. apply lookup_insert_eq.
  - rewrite lookup_insert_ne by discriminate. apply lookup_insert_eq.
  - apply lookup_insert_eq.
  - intros k Hk. rewrite !lookup_insert_ne; [reflexivity | | | ]; intros <-; tauto.
Qed.

(** The annotator is a map over the sequence when every comment has a text,
    and returns only then. *)
Lemma analyze_sentiment_inr (comments annotated : list comment) :
  analyze_sentiment scorer comments = inr annotated ->
  Forall2 (fun c c' => exists text, c !! "text" = Some (VStr text) /\
                                    c' = annotated_with scorer text c)
          comments annotated.
Proof.
  revert annotated. induction comments as [|c rest IH]; intros annotated H.
  - simpl in H. injection H as <-. constructor.
  - cbn [analyze_sentiment] in H.
    destruct (annotate scorer c) as [e|c'] eqn:Hc; [discriminate|].
    destruct (analyze_sentiment scorer rest) as [e|rest'] eqn:Hrest; [discriminate|].
    injection H as <-. constructor; [now apply annotate_inr | now apply IH].
Qed.

Lemma analyze_sentiment_total (comments : list comment) :
  Forall has_text comments ->
  exists annotated, analyze_sentiment scorer comments = inr annotated.
Proof.
  induction 1 as [|c rest [text Htext] _ [rest' IH]].
  - now exists [].
  - eexists. cbn [analyze_sentiment].
    rewrite (annotate_text c text Htext), IH. reflexivity.
Qed.

Lemma analyze_sentiment_has_text (comments annotated : list comment) :
  analyze_sentiment scorer comments = inr annotated -> Forall has_text comments.
Proof.
  intros H. apply analyze_sentiment_inr in H.
  induction H as [|c c' rest rest' [text [Htext _]] _ IH]; constructor; auto.
  now exists text.
Qed.

End AnnotatorFacts.

(** C3.  On comments that carry a text [analyze_sentiment] returns, and
    at every position the comment it returns holds the polarity the scorer
    gives the text of the comment at that position, with the label that
    polarity alone decides: [positive] exactly when the polarity is above
    0.1, [negative] exactly when it is below -0.1, [neutral] otherwise,
    which includes the values 0.1 and -0.1. *)
Theorem sentiment_label_from_polarity
    (scorer : string -> float * float) (comments : list comment) :
  Forall has_text comments ->
  exists annotated,
    analyze_sentiment scorer comments = inr annotated /\
    List.length annotated = List.length comments /\
    (forall i c, comments !! i = Some c ->
       exists text polarity c',
         c !! "text" = Some (VStr text) /\
         polarity = fst (scorer text) /\
         annotated !! i = Some c' /\
         c' !! "polarity" = Some (VFloat polarity) /\
         c' !! "sentiment" = Some (VStr (sentiment_label polarity)) /\
         (sentiment_label polarity = "positive" <->
            PrimFloat.ltb 0.1%float polarity = true) /\
         (sentiment_label polarity = "negative" <->
            PrimFloat.ltb polarity (-0.1)%float = true) /\
         (sentiment_label polarity = "neutral" <->
            PrimFloat.ltb 0.1%float polarity = false /\
            PrimFloat.ltb polarity (-0.1)%float = false)) /\
    sentiment_label 0.1%float = "neutral" /\
    sentiment_label (-0.1)%float = "neutral".
Proof.
  intros Htext.
  destruct (analyze_sentiment_total scorer comments Htext) as [annotated Hrun].
  exists annotated. split; [exact Hrun|].
  apply analyze_sentiment_inr in Hrun.
  split; [symmetry; exact (Forall2_length _ _ _ Hrun)|].
  split; [|split; apply sentiment_label_boundaries].
  intros i c Hc.
  destruct (Forall2_lookup_l _ _ _ _ _ Hrun Hc) as [c' [Hc' [text [Ht ->]]]].
  destruct (annotated_with_lookup scorer text c) as [Hp [_ [Hs _]]].
  exists text, (fst (scorer text)), (annotated_with scorer text c).
  split; [exact Ht|]. split; [reflexivity|]. split; [exact Hc'|].
  split; [exact Hp|]. split; [exact Hs|].
  apply sentiment_label_spec.
Qed.

Lemma sentiment_label_from_polarity_witness :
  exists annotated,
    analyze_sentiment Examples.toy_scorer
      (map comment_of_item Examples.three_comments) = inr annotated /\
    List.length annotated
      = List.length (map comment_of_item Examples.three_comments) /\
    (forall i c, map comment_of_item Examples.three_comments !! i = Some c ->
       exists text polarity c',
         c !! "text" = Some (VStr text) /\
         polarity = fst (Examples.toy_scorer text) /\
         annotated !! i = Some c' /\
         c' !! "polarity" = Some (VFloat polarity) /\
         c' !! "sentiment" = Some (VStr (sentiment_label polarity)) /\
         (sentiment_label polarity = "positive" <->
            PrimFloat.ltb 0.1%float polarity = true) /\
         (sentiment_label polarity = "negative" <->
            PrimFloat.ltb polarity (-0.1)%float = true) /\
         (sentiment_label polarity = "neutral" <->
            PrimFloat.ltb 0.1%float polarity = false /\
            PrimFloat.ltb polarity (-0.1)%float = false)) /\
    sentiment_label 0.1%float = "neutral" /\
    sentiment_label (-0.1)%float = "neutral".
Proof.
  apply (sentiment_label_from_polarity Examples.toy_scorer
           (map comment_of_item Examples.three_comments)).
  repeat constructor; eexists; vm_compute; reflexivity.
Defined.

(** C9.  On a sequence of comments that carry a text, [analyze_sentiment]
    returns a sequence of the same length in the same order; at every
    position the keys other than the three annotations, among them
    [author], [text], [published_at], [like_count] and [reply_count], hold
    what they held, and [polarity], [subjectivity] and [sentiment] are all
    three present. *)
Theorem analyze_sentiment_frame
    (scorer : string -> float * float) (comments : list comment) :
  Forall has_text comments ->
  exists annotated,
    analyze_sentiment scorer comments = inr annotated /\
    List.length annotated = List.length comments /\
    forall i c, comments !! i = Some c ->
      exists c', annotated !! i = Some c' /\
        c' !! "author" = c !! "author" /\
        c' !! "text" = c !! "text" /\
        c' !! "published_at" = c !! "published_at" /\
        c' !! "like_count" = c !! "like_count" /\
        c' !! "reply_count" = c !! "reply_count" /\
        (forall k, ~ annotation_key k -> c' !! k = c !! k) /\
        (exists p, c' !! "polarity" = Some (VFloat p)) /\
        (exists sb, c' !! "subjectivity" = Some (VFloat sb)) /\
        (exists l, c' !! "sentiment" = Some (VStr l)).
Proof.
  intros Htexts.
  destruct (analyze_sentiment_total scorer comments Htexts) as [annotated Hrun].
  exists annotated. split; [exact Hrun|].
  apply analyze_sentiment_inr in Hrun.
  split; [symmetry; eapply Forall2_length; exact Hrun|].
  intros i c Hi.
  destruct (Forall2_lookup_l _ _ _ _ _ Hrun Hi) as [c' [Hi' [text [_ ->]]]].
  exists (annotated_with scorer text c). split; [exact Hi'|].
  destruct (annotated_with_lookup scorer text c) as [Hp [Hsb [Hs Hframe]]].
  assert (Hkey : forall k, k <> "polarity" -> k <> "subjectivity" ->
                           k <> "sentiment" -> ~ annotation_key k).
  { intros k H1 H2 H3 [|[|]]; contradiction. }
  repeat split;
    try (apply Hframe, Hkey; discriminate);
    try exact Hframe; eauto.
Qed.

Lemma analyze_sentiment_frame_witness :
  exists annotated,
    analyze_sentiment Examples.toy_scorer
      (map comment_of_item Examples.three_comments) = inr annotated /\
    List.length annotated
      = List.length (map comment_of_item Examples.three_comments) /\
    forall i c, map comment_of_item Examples.three_comments !! i = Some c ->
      exists c', annotated !! i = Some c' /\
        c' !! "author" = c !! "author" /\
        c' !! "text" = c !! "text" /\
        c' !! "published_at" = c !! "published_at" /\
        c' !! "like_count" = c !! "like_count" /\
        c' !! "reply_count" = c !! "reply_count" /\
        (forall k, ~ annotation_key k -> c' !! k = c !! k) /\
        (exists p, c' !! "polarity" = Some (VFloat p)) /\
        (exists sb, c' !! "subjectivity" = Some (VFloat sb)) /\
        (exists l, c' !! "sentiment" = Some (VStr l)).
Proof.
  apply (analyze_sentiment_frame Examples.toy_scorer
           (map comment_of_item Examples.three_comments)).
  repeat constructor; eexists; vm_compute; reflexivity.
Defined.

(* ===================================================================== *)
(** ** Properties of the Lexical Aggregator                              *)
(* ===================================================================== *)

Section TokenFacts.

Local Abbreviation chars := list_ascii_of_string.

Lemma lower_char_not_upper (c : ascii) :
  Chars.is_upper (Chars.lower_char c) = false.
Proof. destruct c as [[] [] [] [] [] [] [] []]; reflexivity. Qed.

Lemma lower_not_upper (s : string) (c : ascii) :
  In c (chars (Chars.lower s)) -> Chars.is_upper c = false.
Proof.
  induction s as [|a s IH]; simpl; [tauto|].
  intros [<- | Hin]; [apply lower_char_not_upper | now apply IH].
Qed.

Lemma alpha_not_upper (c : ascii) :
  Chars.is_alpha c = true -> Chars.is_upper c = false -> Chars.is_lower c = true.
Proof.
  unfold Chars.is_alpha. intros H Hu. rewrite Hu in H.
  now rewrite orb_false_r in H.
Qed.

Lemma span_alpha_spec (s run rest : string) :
  span_alpha s = (run, rest) ->
  forall c, In c (chars run) -> Chars.is_alpha c = true /\ In c (chars s).
Proof.
  revert run rest. induction s as [|a s IH]; intros run rest H; simpl in H.
  - injection H as <- <-. intros c [].
  - destruct (Chars.is_alpha a) eqn:Ha.
    + destruct (span_alpha s) as [run' rest'] eqn:Hs.
      injection H as <- <-. intros c [<- | Hin].
      * split; [exact Ha | now left].
      * destruct (IH run' rest' eq_refl c Hin). split; [assumption | now right].
    + injection H as <- <-. intros c [].
Qed.

Lemma match_word_token (n : nat) (prev : option ascii) (s t : string) :
  match_word n prev s = Some t ->
  n <= String.length t /\
  forall c, In c (chars t) -> Chars.is_alpha c = true /\ In c (chars s).
Proof.
  unfold match_word. destruct (word_boundary prev s); [|discriminate].
  destruct (span_alpha s) as [run rest] eqn:Hspan.
  destruct ((1 <=? String.length run) && (n <=? String.length run)
            && word_boundary (last_char prev run) rest) eqn:Hfull.
  - intros [= <-]. apply andb_prop in Hfull as [Hfull _].
    apply andb_prop in Hfull as [_ Hn]. apply Nat.leb_le in Hn.
    split; [exact Hn | now apply (span_alpha_spec s run rest)].
  - destruct (Nat.eqb_spec n 0) as [->|]; [|discriminate].
    intros [= <-]. split; [simpl; lia | intros c []].
Qed.

Lemma findall_from_tokens (n : nat) (s : string) :
  forall prev skip t,
    In t (findall_from n prev s skip) ->
    n <= String.length t /\
    forall c, In c (chars t) -> Chars.is_alpha c = true /\ In c (chars s).
Proof.
  induction s as [|a s IH]; intros prev skip t Hin; cbn [findall_from] in Hin.
  - destruct skip; [|destruct Hin].
    destruct (match_word n prev EmptyString) as [t'|] eqn:Hm; [|destruct Hin].
    destruct Hin as [<- | []]. now apply (match_word_token n prev).
  - assert (Hrest : forall prev' skip',
               In t (findall_from n prev' s skip') ->
               n <= String.length t /\
               forall c, In c (chars t) ->
                 Chars.is_alpha c = true /\ In c (chars (String a s))).
    { intros prev' skip' H. destruct (IH prev' skip' t H) as [Hlen Hch].
      split; [exact Hlen|]. intros c Hc. destruct (Hch c Hc).
      split; [assumption | now right]. }
    destruct skip as [|k]; [|now apply (Hrest (Some a) k)].
    destruct (match_word n prev (String a s)) as [t'|] eqn:Hm.
    + destruct Hin as [<- | Hin]; [now apply (match_word_token n prev) | eauto].
    + eauto.
Qed.

Lemma words_of_tokens (n : nat) (sw : gset string) (c : comment)
    (ws : list string) :
  words_of n sw c = inr ws -> Forall (good_token n sw) ws.
Proof.
  unfold words_of. destruct (c !! "text") as [[text| |]|]; try discriminate.
  intros [= <-]. apply List.Forall_forall. intros w Hw.
  apply filter_In in Hw as [Hw Hsw].
  apply (findall_from_tokens n _ None 0) in Hw as [Hlen Hch].
  repeat split.
  - exact Hlen.
  - apply alpha_not_upper; [now apply Hch|].
    apply (lower_not_upper text). now apply Hch.
  - now apply Hch.
  - apply negb_true_iff, bool_decide_eq_false in Hsw. exact Hsw.
Qed.

Lemma all_words_tokens (n : nat) (sw : gset string) (cs : list comment) :
  forall ws, all_words n sw cs = inr ws -> Forall (good_token n sw) ws.
Proof.
  induction cs as [|c cs IH]; intros ws H; cbn [all_words] in H.
  - injection H as <-. constructor.
  - destruct (words_of n sw c) as [e|w1] eqn:Hc; [discriminate|].
    destruct (all_words n sw cs) as [e|w2]; [discriminate|].
    injection H as <-. apply Forall_app. split.
    + now apply (words_of_tokens n sw c).
    + now apply IH.
Qed.

Lemma all_words_total (n : nat) (sw : gset string) (cs : list comment) :
  Forall has_text cs -> exists ws, all_words n sw cs = inr ws.
Proof.
  induction 1 as [|c cs [text Htext] _ [ws IH]].
  - now exists [].
  - eexists. cbn [all_words]. unfold words_of. rewrite Htext, IH. reflexivity.
Qed.

Lemma all_words_has_text (n : nat) (sw : gset string) (cs : list comment) :
  forall ws, all_words n sw cs = inr ws -> Forall has_text cs.
Proof.
  induction cs as [|c cs IH]; intros ws H; cbn [all_words] in H; [constructor|].
  destruct (words_of n sw c) as [e|w1] eqn:Hc; [discriminate|].
  destruct (all_words n sw cs) as [e|w2]; [discriminate|].
  constructor; [|now apply (IH w2)].
  unfold words_of in Hc. destruct (c !! "text") as [[text| |]|] eqn:Ht;
    try discriminate. now exists text.
Qed.

(** An empty text has no word, whatever the minimum length. *)
Lemma findall_empty (n : nat) : findall n (Chars.lower EmptyString) = [].
Proof. unfold findall. simpl. unfold match_word. reflexivity. Qed.

End TokenFacts.

Section SortFacts.

Context {A : Type} (key : A -> Z) (geb : A -> A -> bool).
Hypothesis geb_spec : forall x y, geb x y = true <-> (key y <= key x)%Z.

(** The order of the result relative to an order [Q] of the input: larger
    key first, and [Q] among equal keys. *)
Variable Q : A -> A -> Prop.
Local Abbreviation lex := (fun a b => (key b < key a)%Z \/ (key a = key b /\ Q a b)).

Lemma StronglySorted_impl_in (R R' : A -> A -> Prop) (l : list A) :
  (forall a b, In a l -> In b l -> R a b -> R' a b) ->
  StronglySorted R l -> StronglySorted R' l.
Proof.
  induction l as [|x l IH]; intros Himpl Hs; [constructor|].
  apply StronglySorted_inv in Hs as [Hs Hx]. constructor.
  - apply IH; [|exact Hs]. intros a b Ha Hb. apply Himpl; now right.
  - rewrite List.Forall_forall in *. intros b Hb.
    apply Himpl; [now left | now right | now apply Hx].
Qed.

Lemma StronglySorted_firstn (R : A -> A -> Prop) (n : nat) (l : list A) :
  StronglySorted R l -> StronglySorted R (firstn n l).
Proof.
  intros Hs. rewrite <- (firstn_skipn n l) in Hs.
  now apply StronglySorted_app_1_l in Hs.
Qed.

Lemma In_firstn (n : nat) (l : list A) (x : A) : In x (firstn n l) -> In x l.
Proof.
  intros H. rewrite <- (firstn_skipn n l). apply in_or_app. now left.
Qed.

Lemma insert_desc_perm (x : A) (l : list A) :
  Permutation (insert_desc geb x l) (x :: l).
Proof.
  induction l as [|y r IH]; simpl; [reflexivity|].
  destruct (geb x y); [reflexivity|].
  rewrite IH. apply perm_swap.
Qed.

Lemma sorted_desc_perm (l : list A) : Permutation (sorted_desc geb l) l.
Proof.
  induction l as [|x l IH]; simpl; [reflexivity|].
  rewrite insert_desc_perm. now constructor.
Qed.

Lemma insert_desc_sorted (x : A) (l : list A) :
  StronglySorted lex l -> Forall (Q x) l ->
  StronglySorted lex (insert_desc geb x l).
Proof.
  induction l as [|y r IH]; simpl; intros Hs Hq.
  - repeat constructor.
  - pose proof Hs as Hs0.
    apply StronglySorted_inv in Hs as [Hsr Hy].
    apply List.Forall_cons_iff in Hq as [Hqy Hqr].
    destruct (geb x y) eqn:E.
    + apply geb_spec in E. constructor; [exact Hs0|]. constructor.
      * destruct (Z.eq_dec (key x) (key y)); [right; tauto | left; lia].
      * rewrite List.Forall_forall in *. intros z Hz.
        specialize (Hy z Hz). specialize (Hqr z Hz). cbv beta in Hy.
        destruct (Z.eq_dec (key x) (key z)); [right; tauto | left; lia].
    + assert (Hlt : (key x < key y)%Z).
      { destruct (Z.lt_ge_cases (key x) (key y)) as [|Hge]; [assumption|].
        apply geb_spec in Hge. congruence. }
      constructor; [now apply IH|].
      rewrite insert_desc_perm. constructor; [now left | exact Hy].
Qed.

Lemma sorted_desc_sorted (l : list A) :
  StronglySorted Q l -> StronglySorted lex (sorted_desc geb l).
Proof.
  induction l as [|x l IH]; intros Hs; simpl; [constructor|].
  apply StronglySorted_inv in Hs as [Hs Hx].
  apply insert_desc_sorted; [now apply IH|].
  now rewrite sorted_desc_perm.
Qed.

End SortFacts.

Section CounterFacts.

Lemma first_index_app_in (w : string) (ws r : list string) :
  In w ws -> first_index w (ws ++ r) = first_index w ws.
Proof.
  induction ws as [|a ws IH]; simpl; [tauto|].
  intros Hin. destruct (String.eqb_spec a w) as [|Hne]; [reflexivity|].
  f_equal. apply IH. destruct Hin; [contradiction | assumption].
Qed.

Lemma first_index_lt (w : string) (ws : list string) :
  In w ws -> first_index w ws < List.length ws.
Proof.
  induction ws as [|a ws IH]; simpl; [tauto|].
  intros Hin. destruct (String.eqb_spec a w) as [|Hne]; [lia|].
  destruct Hin; [contradiction|]. apply IH in H. lia.
Qed.

Lemma first_index_fresh (w : string) (ws : list string) :
  ~ In w ws -> first_index w (ws ++ [w]) = List.length ws.
Proof.
  induction ws as [|a ws IH]; simpl; intros Hn.
  - now rewrite String.eqb_refl.
  - destruct (String.eqb_spec a w) as [->|Hne]; [tauto|].
    f_equal. apply IH. tauto.
Qed.

Lemma counter_incr_absent (w : string) (c : list (string * nat)) :
  ~ In w (map fst c) -> counter_incr w c = c ++ [(w, 1)].
Proof.
  induction c as [|[k v] c IH]; simpl; intros Hn; [reflexivity|].
  destruct (String.eqb_spec k w) as [->|Hne]; [tauto|].
  f_equal. apply IH. tauto.
Qed.

Lemma counter_incr_present (w : string) (c : list (string * nat)) :
  In w (map fst c) ->
  exists c1 v c2,
    c = c1 ++ (w, v) :: c2 /\
    ~ In w (map fst c1) /\
    counter_incr w c = c1 ++ (w, Datatypes.S v) :: c2.
Proof.
  induction c as [|[k v] c IH]; simpl; intros Hin; [destruct Hin|].
  destruct (String.eqb_spec k w) as [->|Hne].
  - exists [], v, c. simpl. tauto.
  - destruct Hin as [|Hin]; [contradiction|].
    destruct (IH Hin) as [c1 [v' [c2 [-> [Hn ->]]]]].
    exists ((k, v) :: c1), v', c2. simpl. repeat split. tauto.
Qed.

(** [Counter(words)] lists every word of [words] once, with the number of
    its occurrences, in the order of the first occurrences. *)
Lemma Counter_spec (ws : list string) :
  List.NoDup (map fst (Counter ws)) /\
  (forall k, In k (map fst (Counter ws)) <-> In k ws) /\
  (forall k v, In (k, v) (Counter ws) -> v = count_occ string_dec ws k) /\
  StronglySorted (fun a b => first_index a ws < first_index b ws)
                 (map fst (Counter ws)).
Proof.
  induction ws as [|w ws IH] using rev_ind.
  - repeat split; simpl; try tauto; constructor.
  - destruct IH as [Hnd [Hkeys [Hcount Hsorted]]].
    assert (Hstep : Counter (ws ++ [w]) = counter_incr w (Counter ws)).
    { unfold Counter. now rewrite fold_left_app. }
    rewrite Hstep. set (c := Counter ws) in *.
    assert (Hold : StronglySorted
                     (fun a b => first_index a (ws ++ [w]) < first_index b (ws ++ [w]))
                     (map fst c)).
    { revert Hsorted. apply StronglySorted_impl_in. intros a b Ha Hb.
      rewrite !first_index_app_in by now apply Hkeys. tauto. }
    assert (Hocc : forall k, count_occ string_dec (ws ++ [w]) k
                   = count_occ string_dec ws k + (if string_dec w k then 1 else 0)).
    { intros k. rewrite count_occ_app. simpl. now destruct (string_dec w k). }
    destruct (in_dec string_dec w (map fst c)) as [Hin|Hout].
    + destruct (counter_incr_present w c Hin) as [c1 [v [c2 [Hc [Hn1 ->]]]]].
      assert (Hfst : map fst (c1 ++ (w, Datatypes.S v) :: c2) = map fst c).
      { rewrite Hc, !map_app. reflexivity. }
      rewrite Hfst. split; [exact Hnd|]. split; [|split; [|exact Hold]].
      * intros k. rewrite Hkeys, in_app_iff. simpl.
        split; [tauto|]. intros [|[<-|[]]]; [assumption | now apply Hkeys].
      * assert (Hn2 : ~ In w (map fst c2)).
        { rewrite Hc, map_app in Hnd. simpl in Hnd.
          apply NoDup_remove_2 in Hnd. rewrite in_app_iff in Hnd. tauto. }
        intros k v' Hkv. rewrite Hocc.
        apply in_app_or in Hkv as [Hkv | [Hkv | Hkv]].
        -- assert (k <> w) by (intros ->; apply Hn1, (in_map fst _ _ Hkv)).
           destruct (string_dec w k); [congruence|].
           rewrite Nat.add_0_r. apply Hcount. rewrite Hc. apply in_or_app. now left.
        -- injection Hkv as <- <-. destruct (string_dec w w); [|congruence].
           rewrite <- (Hcount w v); [lia|]. rewrite Hc. apply in_or_app.
           right. now left.
        -- assert (k <> w) by (intros ->; apply Hn2, (in_map fst _ _ Hkv)).
           destruct (string_dec w k); [congruence|].
           rewrite Nat.add_0_r. apply Hcount. rewrite Hc. apply in_or_app.
           right. now right.
    + rewrite (counter_incr_absent w c Hout), map_app. simpl.
      assert (Hw : ~ In w ws) by (now rewrite <- Hkeys).
      split; [|split; [|split]].
      * apply (Permutation_NoDup (l := w :: map fst c)).
        -- apply Permutation_cons_append.
        -- now constructor.
      * intros k. rewrite !in_app_iff, Hkeys. reflexivity.
      * intros k v' Hkv. rewrite Hocc.
        apply in_app_or in Hkv as [Hkv | [Hkv | []]].
        -- assert (k <> w) by (intros ->; apply Hout, (in_map fst _ _ Hkv)).
           destruct (string_dec w k); [congruence|].
           rewrite Nat.add_0_r. now apply Hcount.
        -- injection Hkv as <- <-. destruct (string_dec w w); [|congruence].
           apply (count_occ_not_In string_dec) in Hw. now rewrite Hw.
      * apply StronglySorted_app_2; [|exact Hold|repeat constructor].
        intros x1 x2 Hx1 Hx2. apply list_elem_of_In in Hx1.
        apply list_elem_of_In in Hx2. destruct Hx2 as [<-|[]].
        rewrite first_index_fresh by exact Hw.
        rewrite first_index_app_in by now apply Hkeys.
        apply first_index_lt. now apply Hkeys.
Qed.

Lemma StronglySorted_map_fst (R : string -> string -> Prop)
    (c : list (string * nat)) :
  StronglySorted R (map fst c) ->
  StronglySorted (fun a b => R (fst a) (fst b)) c.
Proof.
  induction c as [|a c IH]; simpl; intros Hs; [constructor|].
  apply StronglySorted_inv in Hs as [Hs Ha].
  constructor; [now apply IH|].
  rewrite List.Forall_forall in *. intros b Hb. apply Ha. now apply in_map.
Qed.

(** [most_common] keeps the entries of the counter, orders them by
    decreasing count and first occurrence, and returns at most [n]. *)
Lemma most_common_spec (n : nat) (ws : list string) :
  StronglySorted (count_then_first_seen ws) (most_common n (Counter ws)) /\
  List.length (most_common n (Counter ws)) <= n /\
  forall e, In e (most_common n (Counter ws)) -> In e (Counter ws).
Proof.
  destruct (Counter_spec ws) as [_ [_ [_ Hsorted]]].
  apply StronglySorted_map_fst in Hsorted.
  unfold most_common. split; [|split].
  - apply StronglySorted_firstn.
    assert (Hgeb : forall x y : string * nat,
               (snd y <=? snd x) = true <->
               (Z.of_nat (snd y) <= Z.of_nat (snd x))%Z).
    { intros x y. rewrite Nat.leb_le. lia. }
    apply (sorted_desc_sorted (fun a => Z.of_nat (snd a)) _ Hgeb) in Hsorted.
    revert Hsorted. apply StronglySorted_impl_in.
    unfold count_then_first_seen. intros a b _ _. lia.
  - apply firstn_le_length.
  - intros e He. apply In_firstn in He.
    revert He. apply Permutation_in. apply sorted_desc_perm.
Qed.

End CounterFacts.

(** C5.  On comments that carry a text, [extract_common_words] returns a
    list of (token, count) entries sorted by non-increasing count, ties in
    the order of the first occurrences over the whole scan, of length at
    most [max_words]; every token is made of lowercase letters only, is at
    least [min_length] long and is no stop word, and its count is the
    number of its occurrences. *)
Theorem extract_common_words_sorted
    (comments : list comment) (min_length max_words : nat)
    (stopwords : option (gset string)) :
  Forall has_text comments ->
  exists words out,
    all_words min_length (stopwords_or_default stopwords) comments = inr words /\
    extract_common_words comments min_length max_words stopwords = inr out /\
    StronglySorted (count_then_first_seen words) out /\
    StronglySorted (fun a b => snd b <= snd a) out /\
    List.length out <= max_words /\
    forall w k, In (w, k) out ->
      k = count_occ string_dec words w /\
      good_token min_length (stopwords_or_default stopwords) w.
Proof.
  intros Htexts.
  destruct (all_words_total min_length (stopwords_or_default stopwords)
              comments Htexts) as [words Hwords].
  exists words, (most_common max_words (Counter words)).
  destruct (most_common_spec max_words words) as [Hsorted [Hlen Hsub]].
  split; [exact Hwords|]. split.
  { unfold extract_common_words. cbv zeta. now rewrite Hwords. }
  split; [exact Hsorted|]. split.
  { revert Hsorted. apply StronglySorted_impl_in.
    unfold count_then_first_seen. intros a b _ _. lia. }
  split; [exact Hlen|].
  intros w k Hin. apply Hsub in Hin.
  destruct (Counter_spec words) as [_ [Hkeys [Hcount _]]].
  split; [now apply Hcount|].
  apply all_words_tokens in Hwords. rewrite List.Forall_forall in Hwords.
  apply Hwords, Hkeys. now apply (in_map fst) in Hin.
Qed.

Lemma extract_common_words_sorted_witness :
  exists words out,
    all_words 4 (stopwords_or_default None)
              (map comment_of_item Examples.three_comments) = inr words /\
    extract_common_words (map comment_of_item Examples.three_comments) 4 3 None
      = inr out /\
    StronglySorted (count_then_first_seen words) out /\
    StronglySorted (fun a b => snd b <= snd a) out /\
    List.length out <= 3 /\
    forall w k, In (w, k) out ->
      k = count_occ string_dec words w /\
      good_token 4 (stopwords_or_default None) w.
Proof.
  apply (extract_common_words_sorted
           (map comment_of_item Examples.three_comments) 4 3 None).
  repeat constructor; eexists; vm_compute; reflexivity.
Defined.

Example extract_common_words_scenario :
  extract_common_words (map comment_of_item Examples.three_comments) 4 100 None
  = inr [("great", 1); ("video", 1); ("loved", 1); ("terrible", 1);
         ("waste", 1); ("time", 1); ("okay", 1); ("guess", 1)].
Proof. vm_compute. reflexivity. Qed.

Example extract_common_words_ties :
  most_common 2 (Counter ["time"; "waste"; "video"; "waste"; "video"; "nice"])
  = [("waste", 2); ("video", 2)].
Proof. vm_compute. reflexivity. Qed.

Section EmptyText.

Variable scorer : string -> float * float.

Lemma all_words_skip (n : nat) (sw : gset string) (c : comment)
    (before after : list comment) :
  words_of n sw c = inr [] ->
  all_words n sw (before ++ c :: after) = all_words n sw (before ++ after).
Proof.
  intros Hc. induction before as [|b before IH]; simpl.
  - rewrite Hc. now destruct (all_words n sw after).
  - now rewrite IH.
Qed.

Lemma words_of_empty_text (n : nat) (sw : gset string) (c : comment) :
  c !! "text" = Some (VStr EmptyString) -> words_of n sw c = inr [].
Proof. intros H. unfold words_of. now rewrite H, findall_empty. Qed.

Lemma words_of_no_text (n : nat) (sw : gset string) (c : comment) :
  c !! "text" = None -> words_of n sw c = inl (KeyError "text").
Proof. intros H. unfold words_of. now rewrite H. Qed.

End EmptyText.

(** C8 (as the code has it).  [analyze_sentiment] and
    [extract_common_words] return exactly on the sequences in which every
    comment carries a text that is a string.  With a scorer that gives the
    empty text the polarity 0, a comment whose text is empty is labelled
    [neutral] and adds no word to the counts.  A comment without the key
    [text] makes the loop body of either raise [KeyError]. *)
Theorem annotator_and_aggregator_need_text
    (scorer : string -> float * float) (comments : list comment)
    (min_length max_words : nat) (stopwords : option (gset string)) :
  fst (scorer EmptyString) = 0%float ->
  (Forall has_text comments <->
     exists annotated, analyze_sentiment scorer comments = inr annotated) /\
  (Forall has_text comments <->
     exists out,
       extract_common_words comments min_length max_words stopwords = inr out) /\
  (forall annotated i c,
     analyze_sentiment scorer comments = inr annotated ->
     comments !! i = Some c -> c !! "text" = Some (VStr EmptyString) ->
     exists c', annotated !! i = Some c' /\
                c' !! "sentiment" = Some (VStr "neutral")) /\
  (forall before c after,
     comments = before ++ c :: after ->
     c !! "text" = Some (VStr EmptyString) ->
     all_words min_length (stopwords_or_default stopwords) comments
     = all_words min_length (stopwords_or_default stopwords) (before ++ after)) /\
  (forall c, c !! "text" = None ->
     annotate scorer c = inl (KeyError "text") /\
     words_of min_length (stopwords_or_default stopwords) c
     = inl (KeyError "text")).
Proof.
  intros Hzero. repeat split.
  - apply analyze_sentiment_total.
  - intros [annotated H]. now apply analyze_sentiment_has_text in H.
  - intros H.
    destruct (all_words_total min_length (stopwords_or_default stopwords)
                comments H) as [ws Hws].
    eexists. unfold extract_common_words. cbv zeta. now rewrite Hws.
  - intros [out H]. unfold extract_common_words in H. cbv zeta in H.
    destruct (all_words min_length (stopwords_or_default stopwords) comments)
      as [e|ws] eqn:Hws; [discriminate|].
    now apply all_words_has_text in Hws.
  - intros annotated i c Hrun Hi Hempty.
    apply analyze_sentiment_inr in Hrun.
    destruct (Forall2_lookup_l _ _ _ _ _ Hrun Hi) as [c' [Hi' [text [Ht ->]]]].
    assert (text = EmptyString) by congruence. subst text.
    eexists. split; [exact Hi'|].
    destruct (annotated_with_lookup scorer EmptyString c) as [_ [_ [Hs _]]].
    rewrite Hs, Hzero. reflexivity.
  - intros before c after -> Hempty. apply all_words_skip.
    now apply words_of_empty_text.
  - now apply annotate_no_text.
  - now apply words_of_no_text.
Qed.

Lemma annotator_and_aggregator_need_text_witness :
  (Forall has_text (map comment_of_item Examples.three_comments) <->
     exists annotated,
       analyze_sentiment Examples.toy_scorer
         (map comment_of_item Examples.three_comments) = inr annotated) /\
  (Forall has_text (map comment_of_item Examples.three_comments) <->
     exists out,
       extract_common_words (map comment_of_item Examples.three_comments)
         4 100 None = inr out).
Proof.
  pose proof (annotator_and_aggregator_need_text Examples.toy_scorer
                (map comment_of_item Examples.three_comments) 4 100 None
                eq_refl) as [H1 [H2 _]].
  split; [exact H1 | exact H2].
Defined.

(** C8 (as stated) fails: a comment without the key [text] makes both the
    annotator and the aggregator raise [KeyError]. *)
Lemma missing_text_raises :
  let c := delete "text"
             (comment_of_item (Examples.item "ann" "great video loved it" 3)) in
  c !! "text" = None /\
  analyze_sentiment Examples.toy_scorer [c] = inl (KeyError "text") /\
  extract_common_words [c] 4 100 None = inl (KeyError "text").
Proof. vm_compute. repeat split. Qed.

(* ===================================================================== *)
(** ** Properties of the Report Compiler                                 *)
(* ===================================================================== *)

Lemma extract_video_id_length (url v : string) :
  extract_video_id url = Some v -> String.length v = 11.
Proof.
  unfold extract_video_id. intros H.
  assert (Hs : re_search url = Some v) by (destruct (re_search url); congruence).
  apply re_search_spec in Hs as [i [[pre [marker [post [_ [_ [_ [Hlen _]]]]]]] _]].
  exact Hlen.
Qed.

Lemma comment_of_item_text (it : thread_item) :
  comment_of_item it !! "text" = Some (VStr (textDisplay it)).
Proof.
  unfold comment_of_item.
  rewrite !lookup_insert_ne by discriminate. apply lookup_insert_eq.
Qed.

Lemma comment_of_item_likes (it : thread_item) :
  like_of (comment_of_item it) = likeCount it.
Proof.
  unfold like_of, comment_of_item.
  rewrite lookup_insert_ne by discriminate. now rewrite lookup_insert_eq.
Qed.

Lemma accumulated_texts (tr : list event) : Forall has_text (accumulated tr).
Proof.
  induction tr as [|[id r|rq [|items next]] tr IH]; cbn [accumulated];
    try assumption; [constructor|].
  apply Forall_app. split; [|exact IH].
  apply List.Forall_forall. intros c Hc. apply in_map_iff in Hc as [it [<- _]].
  eexists. apply comment_of_item_text.
Qed.

Section CompilerFacts.

Variable S : Type.
Variable videos_list : S -> string -> videos_response * S.
Variable threads_list : S -> threads_request -> threads_response * S.
Variable scorer : string -> float * float.
Variable series_mean : list float -> float.
Variable argsort_desc : list Z -> list nat.

(** [get_comments] never lets an exception through, and what it returns are
    comments with a text. *)
Lemma get_comments_returns (fuel : nat) (video_id : string) (max_comments : Z)
    (s : S) (r : run (list comment)) (tr : list event) (s' : S) :
  get_comments threads_list fuel video_id max_comments s = (r, tr, s') ->
  r = Fuel \/ exists cs, r = Ret cs /\ Forall has_text cs.
Proof.
  unfold get_comments.
  destruct (fetch_loop threads_list fuel video_id max_comments None 0 [] s)
    as [[r1 tr1] s1] eqn:Hloop.
  apply fetch_loop_cases in Hloop.
  destruct Hloop as [[-> _] | [[-> | ->] _]]; intros [= <- <- <-].
  - right. exists []. split; [reflexivity | constructor].
  - now left.
  - right. eexists. split; [reflexivity | apply accumulated_texts].
Qed.


Lemma annotated_has_text (comments annotated : list comment) :
  analyze_sentiment scorer comments = inr annotated ->
  Forall has_text annotated.
Proof.
  intros H. apply analyze_sentiment_inr in H.
  induction H as [|c c' rest rest' [text [Htext ->]] _ IH]; constructor; auto.
  exists text.
  destruct (annotated_with_lookup scorer text c) as [_ [_ [_ Hframe]]].
  rewrite Hframe; [exact Htext|]. intros [|[|]]; discriminate.
Qed.

(** Every way through [generate_report]. *)
Lemma generate_report_cases (fuel : nat) (url : string) (max_comments : Z)
    (s : S) (r : run result) (tr : list event) (s' : S) :
  generate_report videos_list threads_list scorer series_mean argsort_desc
                  fuel url max_comments s = (r, tr, s') ->
  (extract_video_id url = None /\ r = Ret (Error invalid_url) /\
   tr = [] /\ s' = s) \/
  exists v resp s1,
    extract_video_id url = Some v /\ videos_list s v = (resp, s1) /\
    (((resp = VideosError \/ resp = VideosOk []) /\
      r = Ret (Error no_details) /\ tr = [EvVideos v resp] /\ s' = s1) \/
     exists item items r2 tr2,
       resp = VideosOk (item :: items) /\
       get_comments threads_list fuel v max_comments s1 = (r2, tr2, s') /\
       tr = EvVideos v resp :: tr2 /\
       ((r2 = Fuel /\ r = Fuel) \/
        (r2 = Ret [] /\ r = Ret (Error no_comments)) \/
        exists c cs annotated rep,
          r2 = Ret (c :: cs) /\
          analyze_sentiment scorer (c :: cs) = inr annotated /\
          r = Ret (Report rep) /\
          all_comments rep = annotated /\
          total_analyzed rep = List.length annotated /\
          top_comments rep
            = firstn 5 (sort_values_like_count argsort_desc annotated) /\
          extract_common_words annotated 4 100 None = inr (common_words rep))).
Proof.
  unfold generate_report.
  destruct (extract_video_id url) as [v|] eqn:Hv.
  2: { intros [= <- <- <-]. left. tauto. }
  pose proof (extract_video_id_length url v Hv) as Hlen.
  destruct v as [|a v0]; [discriminate Hlen|].
  unfold get_video_details.
  destruct (videos_list s (String a v0)) as [resp s1] eqn:Hvid.
  intros H. right. exists (String a v0), resp, s1.
  split; [reflexivity|]. split; [exact Hvid|].
  destruct resp as [|[|item items]].
  - injection H as <- <- <-. left. tauto.
  - injection H as <- <- <-. left. tauto.
  - right.
    destruct (get_comments threads_list fuel (String a v0) max_comments s1)
      as [[r2 tr2] s2] eqn:Hgc.
    pose proof (get_comments_returns _ _ _ _ _ _ _ Hgc) as Hret.
    exists item, items, r2, tr2.
    destruct Hret as [-> | [cs [-> Htexts]]].
    + injection H as <- <- <-. repeat split. now left.
    + destruct cs as [|c cs].
      * injection H as <- <- <-. repeat split. right. now left.
      * destruct (analyze_sentiment_total scorer (c :: cs) Htexts)
          as [annotated Hann].
        rewrite Hann in H.
        pose proof (annotated_has_text _ _ Hann) as Htexts'.
        destruct (all_words_total 4 (stopwords_or_default None) annotated Htexts')
          as [ws Hws].
        assert (Hcw : extract_common_words annotated 4 100 None
                      = inr (most_common 100 (Counter ws))).
        { unfold extract_common_words. cbv zeta. now rewrite Hws. }
        rewrite Hcw in H. injection H as <- <- <-.
        repeat split. right. right.
        eexists c, cs, annotated, _. repeat split; try reflexivity; assumption.
Qed.

End CompilerFacts.


Example generate_report_invalid_url :
  generate_report Examples.one_video
    (Examples.paged_threads Examples.three_comments 2) Examples.toy_scorer
    Examples.toy_mean Examples.argsort_stable 10 "not a url" 10 tt
  = (Ret (Error invalid_url), [], tt).
Proof. reflexivity. Qed.

Example generate_report_no_details :
  generate_report Examples.no_video
    (Examples.paged_threads Examples.three_comments 2) Examples.toy_scorer
    Examples.toy_mean Examples.argsort_stable 10
    "https://youtu.be/dQw4w9WgXcQ" 10 tt
  = (Ret (Error no_details), [EvVideos "dQw4w9WgXcQ" (VideosOk [])], tt).
Proof. reflexivity. Qed.

Example generate_report_no_comments :
  fst (fst (generate_report Examples.one_video
              (Examples.paged_threads [] 2) Examples.toy_scorer
              Examples.toy_mean Examples.argsort_stable 10
              "https://youtu.be/dQw4w9WgXcQ" 10 tt))
  = Ret (Error no_comments).
Proof. reflexivity. Qed.

Example generate_report_after_failure :
  fst (fst (generate_report Examples.flaky_videos Examples.flaky_threads
              Examples.toy_scorer Examples.toy_mean Examples.argsort_stable 10
              "https://youtu.be/dQw4w9WgXcQ" 10 0))
  = Ret (Error no_comments).
Proof. reflexivity. Qed.

Section TopComments.

Lemma omap_total {A B : Type} (f : A -> option B) (l : list A) :
  Forall (fun a => is_Some (f a)) l ->
  Forall2 (fun a b => f a = Some b) l (omap f l).
Proof.
  induction 1 as [|a l [b Hb] _ IH]; [constructor|].
  cbn. rewrite Hb. cbn. now constructor.
Qed.

Lemma Forall2_StronglySorted {A B : Type} (rel : A -> B -> Prop)
    (P : A -> A -> Prop) (P' : B -> B -> Prop) (l : list A) (k : list B) :
  (forall a b x y, rel a x -> rel b y -> P a b -> P' x y) ->
  Forall2 rel l k -> StronglySorted P l -> StronglySorted P' k.
Proof.
  intros Hrel H2. induction H2 as [|a x l k Hax H2 IH]; intros Hs;
    [constructor|].
  apply StronglySorted_inv in Hs as [Hs Ha]. constructor; [now apply IH|].
  clear IH Hs. induction H2 as [|b y l k Hby H2 IH]; [constructor|].
  apply List.Forall_cons_iff in Ha as [Hab Ha].
  constructor; [now apply (Hrel a b) | now apply IH].
Qed.

Lemma Forall2_In_r {A B : Type} (rel : A -> B -> Prop) (l : list A)
    (k : list B) (y : B) :
  Forall2 rel l k -> In y k -> exists x, In x l /\ rel x y.
Proof.
  induction 1 as [|a x l k Hax _ IH]; intros Hin; [destruct Hin|].
  destruct Hin as [<- | Hin].
  - exists a. split; [now left | assumption].
  - destruct (IH Hin) as [x' [Hx' Hr]]. exists x'. split; [now right | assumption].
Qed.

Lemma NoDup_firstn {A : Type} (n : nat) (l : list A) :
  List.NoDup l -> List.NoDup (firstn n l).
Proof.
  intros H. rewrite <- (firstn_skipn n l) in H.
  now apply NoDup_app_remove_r in H.
Qed.

Lemma like_of_nth (rows : list comment) (i : nat) (c : comment) :
  rows !! i = Some c -> nth i (map like_of rows) 0%Z = like_of c.
Proof.
  intros H. apply nth_lookup_Some with (d := 0%Z).
  change (map like_of rows) with (like_of <$> rows).
  now rewrite list_lookup_fmap, H.
Qed.

(** The top five of any sort that keeps the promise of the library. *)
Lemma top_five_spec (argsort_desc : list Z -> list nat) (rows : list comment) :
  sorts_descending argsort_desc ->
  exists idx,
    List.NoDup idx /\
    List.length idx = Nat.min 5 (List.length rows) /\
    Forall2 (fun i c => rows !! i = Some c) idx
            (firstn 5 (sort_values_like_count argsort_desc rows)) /\
    StronglySorted (fun a b => (like_of b <= like_of a)%Z)
                   (firstn 5 (sort_values_like_count argsort_desc rows)) /\
    (forall j c, rows !! j = Some c -> ~ In j idx ->
       forall c', In c' (firstn 5 (sort_values_like_count argsort_desc rows)) ->
                  (like_of c <= like_of c')%Z).
Proof.
  intros Hsort. unfold sort_values_like_count.
  set (keys := map like_of rows).
  destruct (Hsort keys) as [Hperm Hsorted].
  set (full := argsort_desc keys) in *.
  assert (Hn : List.length keys = List.length rows) by apply length_map.
  rewrite Hn in Hperm.
  assert (Hvalid : forall i, In i full <-> i < List.length rows).
  { intros i. split; intros H.
    - apply (Permutation_in _ Hperm), in_seq in H. lia.
    - apply (Permutation_in _ (Permutation_sym Hperm)), in_seq. lia. }
  assert (Hrows : Forall2 (fun i c => rows !! i = Some c) full
                          (omap (fun i => rows !! i) full)).
  { apply omap_total, List.Forall_forall. intros i Hi.
    apply lookup_lt_is_Some. now apply Hvalid. }
  assert (Htop : Forall2 (fun i c => rows !! i = Some c) (firstn 5 full)
                         (firstn 5 (omap (fun i => rows !! i) full))).
  { now apply Forall2_take. }
  exists (firstn 5 full). split; [|split; [|split; [exact Htop|split]]].
  - apply NoDup_firstn. apply (Permutation_NoDup (Permutation_sym Hperm)).
    apply seq_NoDup.
  - rewrite length_firstn, (Permutation_length Hperm), length_seq. reflexivity.
  - apply (Forall2_StronglySorted (fun i c => rows !! i = Some c)
             (fun a b => (nth b keys 0 <= nth a keys 0)%Z) _
             (firstn 5 full) _); [|exact Htop|].
    + intros a b x y Ha Hb. unfold keys.
      now rewrite (like_of_nth rows a x Ha), (like_of_nth rows b y Hb).
    + clear -Hsorted. rewrite <- (firstn_skipn 5 full) in Hsorted.
      now apply StronglySorted_app_1_l in Hsorted.
  - intros j c Hj Hout c' Hc'.
    destruct (Forall2_In_r _ _ _ _ Htop Hc') as [i [Hi Hic']].
    assert (Hjfull : In j full).
    { apply Hvalid. apply lookup_lt_is_Some. now exists c. }
    rewrite <- (firstn_skipn 5 full) in Hjfull, Hsorted.
    apply in_app_or in Hjfull as [|Hjrest]; [contradiction|].
    pose proof (StronglySorted_app_1_elem_of _ _ _ i j Hsorted) as Hle.
    rewrite <- (like_of_nth rows j c Hj), <- (like_of_nth rows i c' Hic').
    apply Hle; now apply list_elem_of_In.
Qed.

Lemma StronglySorted_trivial {A : Type} (l : list A) :
  StronglySorted (fun _ _ => True) l.
Proof.
  induction l; constructor; [assumption|]. now apply List.Forall_forall.
Qed.

(** Insertion of the offsets in any order gives a sort by decreasing key. *)
Lemma argsort_from_sorts (order : list Z -> list nat) :
  (forall keys, Permutation (order keys) (seq 0 (List.length keys))) ->
  sorts_descending (fun keys => Examples.argsort_from (order keys) keys).
Proof.
  intros Horder keys. unfold Examples.argsort_from. split.
  - rewrite sorted_desc_perm. apply Horder.
  - assert (Hgeb : forall a b : nat,
               (nth b keys 0 <=? nth a keys 0)%Z = true <->
               (nth b keys 0 <= nth a keys 0)%Z).
    { intros a b. apply Z.leb_le. }
    pose proof (sorted_desc_sorted (fun a => nth a keys 0%Z) _ Hgeb
                  (fun _ _ => True) (order keys)
                  (StronglySorted_trivial _)) as Hs.
    revert Hs. apply StronglySorted_impl_in. intros a b _ _. lia.
Qed.

Lemma argsort_stable_sorts : sorts_descending Examples.argsort_stable.
Proof.
  apply (argsort_from_sorts (fun keys => seq 0 (List.length keys))).
  reflexivity.
Qed.

End TopComments.

(** C6 (as the code has it).  With a sort that orders the rows by
    decreasing like count, the top comments of a report are the first five
    rows of that order: at most five, exactly five when there are that
    many comments, each a comment of the report taken once, in
    non-increasing order of like count, and no comment left out has more
    likes than one that is listed.  The order of comments with equal like
    counts is the sort's choice. *)
Theorem top_comments_by_like_count
    (S : Type) (videos_list : S -> string -> videos_response * S)
    (threads_list : S -> threads_request -> threads_response * S)
    (scorer : string -> float * float) (series_mean : list float -> float)
    (argsort_desc : list Z -> list nat)
    (fuel : nat) (url : string) (max_comments : Z) (s : S)
    (rep : report) (tr : list event) (s' : S) :
  sorts_descending argsort_desc ->
  generate_report videos_list threads_list scorer series_mean argsort_desc
                  fuel url max_comments s = (Ret (Report rep), tr, s') ->
  exists idx,
    List.NoDup idx /\
    List.length idx = Nat.min 5 (List.length (all_comments rep)) /\
    Forall2 (fun i c => all_comments rep !! i = Some c) idx (top_comments rep) /\
    StronglySorted (fun a b => (like_of b <= like_of a)%Z) (top_comments rep) /\
    (forall j c, all_comments rep !! j = Some c -> ~ In j idx ->
       forall c', In c' (top_comments rep) -> (like_of c <= like_of c')%Z).
Proof.
  intros Hsort Hrun. apply generate_report_cases in Hrun.
  destruct Hrun as [[_ [Hr _]] | [v [resp [s1 [_ [_ Hrest]]]]]]; [discriminate|].
  destruct Hrest as [[_ [Hr _]] | [item [items [r2 [tr2 [_ [_ [_ Hcases]]]]]]]];
    [discriminate|].
  destruct Hcases as [[_ Hr] | [[_ Hr] | Hrep]]; try discriminate.
  destruct Hrep as [c [cs [annotated [rep' [_ [_ [Hr [Hall [_ [Htop _]]]]]]]]]].
  injection Hr as <-. rewrite Htop, Hall.
  now apply top_five_spec.
Qed.

Lemma top_comments_by_like_count_witness :
  exists rep tr,
    generate_report Examples.one_video
      (Examples.paged_threads Examples.three_comments 2) Examples.toy_scorer
      Examples.toy_mean Examples.argsort_stable 10
      "https://youtu.be/dQw4w9WgXcQ" 10 tt = (Ret (Report rep), tr, tt) /\
    exists idx,
      List.NoDup idx /\
      List.length idx = Nat.min 5 (List.length (all_comments rep)) /\
      Forall2 (fun i c => all_comments rep !! i = Some c) idx (top_comments rep) /\
      StronglySorted (fun a b => (like_of b <= like_of a)%Z) (top_comments rep) /\
      (forall j c, all_comments rep !! j = Some c -> ~ In j idx ->
         forall c', In c' (top_comments rep) -> (like_of c <= like_of c')%Z).
Proof.
  eexists _, _. split; [vm_compute; reflexivity|].
  eapply (top_comments_by_like_count unit Examples.one_video
            (Examples.paged_threads Examples.three_comments 2)
            Examples.toy_scorer Examples.toy_mean Examples.argsort_stable
            10 "https://youtu.be/dQw4w9WgXcQ" 10 tt).
  - apply argsort_stable_sorts.
  - vm_compute. reflexivity.
Defined.

(** C6 (as stated) fails.  Eighteen comments are fetched; the thirteenth
    to the seventeenth have 5, 7, 7, 9 and 12 likes and the others none.
    The column has more than 17 rows, so that the quicksort of
    [sort_values] partitions it instead of sorting it by insertion, and
    the two comments with 7 likes come out in the reverse of their fetch
    order: [oda], fetched after [ned], is listed before [ned]. *)
Lemma top_comments_ties_not_in_fetch_order :
  exists rep tr,
    generate_report Examples.one_video
      (Examples.paged_threads Examples.eighteen_comments 100)
      Examples.toy_scorer Examples.toy_mean NumpySort.nargsort_descending 10
      "https://youtu.be/dQw4w9WgXcQ" 100 tt = (Ret (Report rep), tr, tt) /\
    map (fun c => (c !! "author", like_of c)) (all_comments rep)
      = [(Some (VStr "ann"), 0%Z); (Some (VStr "bob"), 0%Z);
         (Some (VStr "cat"), 0%Z); (Some (VStr "dan"), 0%Z);
         (Some (VStr "eve"), 0%Z); (Some (VStr "fay"), 0%Z);
         (Some (VStr "gus"), 0%Z); (Some (VStr "hal"), 0%Z);
         (Some (VStr "ivy"), 0%Z); (Some (VStr "jon"), 0%Z);
         (Some (VStr "kim"), 0%Z); (Some (VStr "lee"), 0%Z);
         (Some (VStr "max"), 5%Z); (Some (VStr "ned"), 7%Z);
         (Some (VStr "oda"), 7%Z); (Some (VStr "pam"), 9%Z);
         (Some (VStr "quy"), 12%Z); (Some (VStr "ray"), 0%Z)] /\
    map (fun c => (c !! "author", like_of c)) (top_comments rep)
      = [(Some (VStr "quy"), 12%Z); (Some (VStr "pam"), 9%Z);
         (Some (VStr "oda"), 7%Z); (Some (VStr "ned"), 7%Z);
         (Some (VStr "max"), 5%Z)] /\
    map (fun c => (c !! "author", like_of c))
        (top5_fetch_order (all_comments rep))
      = [(Some (VStr "quy"), 12%Z); (Some (VStr "pam"), 9%Z);
         (Some (VStr "ned"), 7%Z); (Some (VStr "oda"), 7%Z);
         (Some (VStr "max"), 5%Z)] /\
    top_comments rep <> top5_fetch_order (all_comments rep).
Proof.
  pose (shown := fun c : comment => (c !! "author", like_of c)).
  assert (Hrun :
    match generate_report Examples.one_video
            (Examples.paged_threads Examples.eighteen_comments 100)
            Examples.toy_scorer Examples.toy_mean
            NumpySort.nargsort_descending 10
            "https://youtu.be/dQw4w9WgXcQ" 100 tt with
    | (Ret (Report rep), _, _) =>
        map shown (all_comments rep)
          = map (fun i => (Some (VStr (authorDisplayName i)), likeCount i))
                Examples.eighteen_comments /\
        map shown (top_comments rep)
          = [(Some (VStr "quy"), 12%Z); (Some (VStr "pam"), 9%Z);
             (Some (VStr "oda"), 7%Z); (Some (VStr "ned"), 7%Z);
             (Some (VStr "max"), 5%Z)] /\
        map shown (top5_fetch_order (all_comments rep))
          = [(Some (VStr "quy"), 12%Z); (Some (VStr "pam"), 9%Z);
             (Some (VStr "ned"), 7%Z); (Some (VStr "oda"), 7%Z);
             (Some (VStr "max"), 5%Z)]
    | _ => False
    end).
  { vm_compute. repeat split. }
  destruct (generate_report _ _ _ _ _ _ _ _ _) as [[[[msg|rep]|e|] tr] []];
    try contradiction.
  destruct Hrun as (Hall & Htop & Hfetch).
  exists rep, tr. split; [reflexivity|].
  split; [exact Hall|]. split; [exact Htop|]. split; [exact Hfetch|].
  intros Heq. fold shown in Htop. rewrite Heq, Hfetch in Htop.
  discriminate Htop.
Qed.

(* ===================================================================== *)
(** ** Further properties of the Video Resolver                          *)
(* ===================================================================== *)

Section ResolverMore.

Local Notation "a +++ b" := (String.append a b) (at level 60, right associativity).

Lemma re_search_hit (s t : string) :
  match_here s = Some t -> re_search s = Some t.
Proof. intros H. destruct s; cbn [re_search]; now rewrite H. Qed.

Lemma re_search_skip (c : ascii) (r : string) :
  match_here (String c r) = None -> re_search (String c r) = re_search r.
Proof. intros H. cbn [re_search]. now rewrite H. Qed.

Lemma id_run_valid (t rest : string) :
  valid_id t -> id_run 11 (t +++ rest) = Some t.
Proof. intros [Hlen Hall]. apply id_run_spec. now exists rest. Qed.

Lemma append_cons (c : ascii) (a b : string) :
  String c a +++ b = String c (a +++ b).
Proof. reflexivity. Qed.

Lemma append_nil (b : string) : EmptyString +++ b = b.
Proof. reflexivity. Qed.

Lemma append_assoc' (a b c : string) : (a +++ b) +++ c = a +++ (b +++ c).
Proof.
  induction a as [|x a IH]; [reflexivity|].
  rewrite !append_cons. now rewrite IH.
Qed.

End ResolverMore.

Ltac skip_prefix :=
  rewrite ?append_cons, ?append_nil;
  repeat (rewrite re_search_skip by reflexivity).

(** X1.  A video identifier that [extract_video_id] returns has exactly 11
    characters of the alphabet and stands in the URL after at least one
    other character. *)
Theorem extract_video_id_wellformed (url v : string) :
  extract_video_id url = Some v ->
  valid_id v /\
  exists pre post,
    url = String.append pre (String.append v post) /\ pre <> EmptyString.
Proof.
  unfold extract_video_id. intros H.
  assert (Hs : re_search url = Some v) by (destruct (re_search url); congruence).
  apply re_search_spec in Hs
    as [i [[pre [marker [post [Hurl [_ [Hm [Hlen Hall]]]]]]] _]].
  split; [split; assumption|].
  exists (String.append pre marker), post. split.
  - rewrite Hurl. symmetry. apply append_assoc'.
  - destruct Hm as [-> | ->]; destruct pre; discriminate.
Qed.

Lemma extract_video_id_wellformed_witness :
  valid_id "dQw4w9WgXcQ" /\
  exists pre post,
    "https://youtu.be/dQw4w9WgXcQ?t=1"
    = String.append pre (String.append "dQw4w9WgXcQ" post) /\
    pre <> EmptyString.
Proof.
  apply (extract_video_id_wellformed "https://youtu.be/dQw4w9WgXcQ?t=1"
           "dQw4w9WgXcQ").
  reflexivity.
Defined.

(** X2.  The usual forms of a video URL give back the identifier they were
    built from, whatever follows it: the watch page, the short link and
    the embed link. *)
Theorem extract_video_id_usual_urls (t rest : string) :
  valid_id t ->
  extract_video_id
    (String.append "https://www.youtube.com/watch?v=" (String.append t rest))
  = Some t /\
  extract_video_id
    (String.append "https://youtu.be/" (String.append t rest)) = Some t /\
  extract_video_id
    (String.append "https://www.youtube.com/embed/" (String.append t rest))
  = Some t.
Proof.
  intros Hid. pose proof (id_run_valid t rest Hid) as Hrun.
  unfold extract_video_id. repeat split.
  - skip_prefix. rewrite (re_search_hit _ t); [reflexivity|].
    unfold match_here. now rewrite Hrun.
  - skip_prefix. rewrite (re_search_hit _ t); [reflexivity|].
    unfold match_here. exact Hrun.
  - skip_prefix. rewrite (re_search_hit _ t); [reflexivity|].
    unfold match_here. exact Hrun.
Qed.

Lemma extract_video_id_usual_urls_witness :
  extract_video_id
    (String.append "https://www.youtube.com/watch?v="
                   (String.append "dQw4w9WgXcQ" "&list=PL1"))
  = Some "dQw4w9WgXcQ" /\
  extract_video_id
    (String.append "https://youtu.be/" (String.append "dQw4w9WgXcQ" "&list=PL1"))
  = Some "dQw4w9WgXcQ" /\
  extract_video_id
    (String.append "https://www.youtube.com/embed/"
                   (String.append "dQw4w9WgXcQ" "&list=PL1"))
  = Some "dQw4w9WgXcQ".
Proof.
  apply (extract_video_id_usual_urls "dQw4w9WgXcQ" "&list=PL1").
  split; [reflexivity|].
  intros c Hc. apply is_id_char_alphabet.
  simpl in Hc. repeat (destruct Hc as [<- | Hc]; [reflexivity|]). destruct Hc.
Defined.

(** X3.  The first path segment wins: when the path of a URL starts with 11
    characters of the alphabet, these are returned, whatever follows, a
    [v=] parameter with another identifier included. *)
Theorem extract_video_id_path_shadows_query (t rest : string) :
  valid_id t ->
  extract_video_id
    (String.append "https://www.youtube.com/" (String.append t rest)) = Some t.
Proof.
  intros Hid. pose proof (id_run_valid t rest Hid) as Hrun.
  unfold extract_video_id. skip_prefix.
  rewrite (re_search_hit _ t); [reflexivity|].
  unfold match_here. exact Hrun.
Qed.

Lemma extract_video_id_path_shadows_query_witness :
  extract_video_id
    (String.append "https://www.youtube.com/"
       (String.append "playlist_of" "_mine/watch?v=dQw4w9WgXcQ"))
  = Some "playlist_of".
Proof.
  apply (extract_video_id_path_shadows_query "playlist_of"
           "_mine/watch?v=dQw4w9WgXcQ").
  split; [reflexivity|].
  intros c Hc. apply is_id_char_alphabet.
  simpl in Hc. repeat (destruct Hc as [<- | Hc]; [reflexivity|]). destruct Hc.
Defined.

(* ===================================================================== *)
(** ** Further properties of the Comment Paginator                       *)
(* ===================================================================== *)

Section PaginatorMore.

Variable S : Type.
Variable threads_list : S -> threads_request -> threads_response * S.

Lemma split_singleton {A : Type} (x e : A) (l1 l2 : list A) :
  [x] = l1 ++ e :: l2 -> l1 = [] /\ e = x /\ l2 = [].
Proof.
  destruct l1 as [|y l1]; simpl; intros H.
  - injection H as <- <-. tauto.
  - injection H as _ H. now apply app_cons_not_nil in H.
Qed.

(** The shape of every request of the loop. *)
Lemma fetch_loop_requests (fuel : nat) (video_id : string) (max_comments : Z) :
  forall tok count comments s r tr s',
    fetch_loop threads_list fuel video_id max_comments tok count comments s
      = (r, tr, s') ->
    forall tr1 e tr2, tr = tr1 ++ e :: tr2 ->
      exists rq resp,
        e = EvThreads rq resp /\
        videoId rq = video_id /\
        maxResults rq
          = Z.min 100 (max_comments
                       - (count + Z.of_nat (List.length (accumulated tr1)))) /\
        (count + Z.of_nat (List.length (accumulated tr1)) < max_comments)%Z /\
        pageToken rq = last_token tok tr1 /\
        (tr1 <> [] -> truthy (pageToken rq) = true).
Proof.
  assert (Hfirst : forall tok count rq resp,
             (count < max_comments)%Z ->
             rq = {| videoId := video_id;
                     maxResults := Z.min 100 (max_comments - count);
                     pageToken := tok |} ->
             exists rq' resp',
               EvThreads rq resp = EvThreads rq' resp' /\
               videoId rq' = video_id /\
               maxResults rq'
                 = Z.min 100 (max_comments
                              - (count + Z.of_nat (List.length (accumulated [])))) /\
               (count + Z.of_nat (List.length (accumulated [])) < max_comments)%Z /\
               pageToken rq' = last_token tok [] /\
               (@nil event <> [] -> truthy (pageToken rq') = true)).
  { intros tok count rq resp Hlt ->. eexists _, _. split; [reflexivity|].
    cbn [videoId maxResults pageToken accumulated List.length last_token Z.of_nat].
    rewrite Z.add_0_r. repeat split; try lia. intros Hne. now destruct Hne. }
  induction fuel as [|fuel IH]; intros tok count comments s r tr s' H;
    cbn [fetch_loop] in H;
    destruct (Z.ltb_spec count max_comments) as [Hlt|Hge];
    try (injection H as <- <- <-; intros tr1 e tr2 Hsplit;
         now apply app_cons_not_nil in Hsplit).
  destruct (threads_list s _) as [[|items next] s1] eqn:Hcall.
  - injection H as <- <- <-. intros tr1 e tr2 Hsplit.
    apply split_singleton in Hsplit as [-> [-> ->]]. now apply Hfirst.
  - destruct (truthy next) eqn:Hnext; cbn [negb orb] in H.
    + destruct (Z.geb_spec (count + Z.of_nat (List.length items)) max_comments)
        as [Hfull|Hmore].
      * injection H as <- <- <-. intros tr1 e tr2 Hsplit.
        apply split_singleton in Hsplit as [-> [-> ->]]. now apply Hfirst.
      * destruct (fetch_loop _ fuel _ _ _ _ _ _) as [[r1 tr'] s2] eqn:Hrec.
        injection H as <- <- <-. intros tr1 e tr2 Hsplit.
        destruct tr1 as [|e1 tr1].
        -- injection Hsplit as <- _. now apply Hfirst.
        -- injection Hsplit as <- Hsplit.
           destruct (IH _ _ _ _ _ _ _ Hrec tr1 e tr2 Hsplit)
             as [rq [resp [-> [Hvid [Hmax [Hcount [Htok Htruthy]]]]]]].
           exists rq, resp. split; [reflexivity|]. cbn [accumulated last_token].
           rewrite length_app, length_map.
           repeat split; try assumption; try lia.
           intros _. destruct tr1 as [|e2 tr1].
           ++ cbn [last_token] in Htok. now rewrite Htok.
           ++ now apply Htruthy.
    + injection H as <- <- <-. intros tr1 e tr2 Hsplit.
      apply split_singleton in Hsplit as [-> [-> ->]]. now apply Hfirst.
Qed.

Lemma get_comments_trace (fuel : nat) (video_id : string) (max_comments : Z)
    (s : S) (r : run (list comment)) (tr : list event) (s' : S) :
  get_comments threads_list fuel video_id max_comments s = (r, tr, s') ->
  exists r1,
    fetch_loop threads_list fuel video_id max_comments None 0 [] s
    = (r1, tr, s') /\
    (r1 = Exn HttpError /\ r = Ret [] \/ r1 <> Exn HttpError /\ r = r1).
Proof.
  unfold get_comments.
  destruct (fetch_loop threads_list fuel video_id max_comments None 0 [] s)
    as [[r1 tr1] s1].
  intros H. exists r1.
  destruct r1 as [cs|[|k| |]|]; injection H as <- <- <-;
    (split; [reflexivity|]); (left; split; reflexivity) || (right; split; [discriminate | reflexivity]).
Qed.

(** More fuel does not change a run that came to its end. *)
Lemma fetch_loop_more_fuel (fuel : nat) (video_id : string) (max_comments : Z) :
  forall tok count comments s r tr s',
    fetch_loop threads_list fuel video_id max_comments tok count comments s
      = (r, tr, s') ->
    r <> Fuel ->
    forall k,
      fetch_loop threads_list (fuel + k) video_id max_comments tok count
                 comments s = (r, tr, s').
Proof.
  induction fuel as [|fuel IH]; intros tok count comments s r tr s' H Hr k.
  - cbn [fetch_loop] in H. destruct (Z.ltb_spec count max_comments).
    + injection H as <- _ _. congruence.
    + destruct (0 + k); cbn [fetch_loop];
        destruct (Z.ltb_spec count max_comments); (lia || exact H).
  - cbn [fetch_loop Nat.add] in H |- *.
    destruct (count <? max_comments)%Z; [|exact H].
    destruct (threads_list s _) as [[|items next] s1]; [exact H|].
    destruct (negb (truthy next) || _); [exact H|].
    destruct (fetch_loop _ fuel _ _ _ _ _ _) as [[r1 tr1] s2] eqn:Hrec.
    injection H as <- <- <-.
    now rewrite (IH _ _ _ _ _ _ _ Hrec Hr k).
Qed.

End PaginatorMore.

(** X4.  Every request [get_comments] sends is for the video asked for; it
    asks for the budget that is left, at least 1 and at most 100 results;
    the first request carries no page token, and every later one carries
    the continuation token of the answer before it, which is not empty. *)
Theorem get_comments_requests
    (S : Type) (threads_list : S -> threads_request -> threads_response * S)
    (fuel : nat) (video_id : string) (max_comments : Z) (s : S)
    (r : run (list comment)) (tr : list event) (s' : S)
    (tr1 : list event) (e : event) (tr2 : list event) :
  get_comments threads_list fuel video_id max_comments s = (r, tr, s') ->
  tr = tr1 ++ e :: tr2 ->
  exists rq resp,
    e = EvThreads rq resp /\
    videoId rq = video_id /\
    maxResults rq
      = Z.min 100 (max_comments - Z.of_nat (List.length (accumulated tr1))) /\
    (1 <= maxResults rq <= 100)%Z /\
    pageToken rq = last_token None tr1 /\
    (tr1 = [] -> pageToken rq = None) /\
    (tr1 <> [] -> truthy (pageToken rq) = true).
Proof.
  intros Hrun Hsplit.
  apply get_comments_trace in Hrun as [r1 [Hloop _]].
  destruct (fetch_loop_requests S threads_list _ _ _ _ _ _ _ _ _ _ Hloop
              tr1 e tr2 Hsplit)
    as [rq [resp [-> [Hvid [Hmax [Hcount [Htok Htruthy]]]]]]].
  exists rq, resp. rewrite Z.add_0_l in Hmax, Hcount.
  repeat split; try assumption; try lia.
  intros ->. exact Htok.
Qed.

Lemma get_comments_requests_witness :
  exists rq resp,
    EvThreads {| videoId := "dQw4w9WgXcQ"; maxResults := 9;
                 pageToken := Some "QURTSl9p" |} ThreadsError
    = EvThreads rq resp /\
    videoId rq = "dQw4w9WgXcQ" /\
    maxResults rq = 9%Z /\
    (1 <= maxResults rq <= 100)%Z /\
    pageToken rq = Some "QURTSl9p".
Proof.
  destruct (get_comments_requests nat Examples.flaky_threads 5 "dQw4w9WgXcQ"
              10 0 (Ret []) _ 2
              [EvThreads {| videoId := "dQw4w9WgXcQ"; maxResults := 10;
                            pageToken := None |}
                 (ThreadsPage [Examples.item "ann" "great video loved it" 3]
                              (Some "QURTSl9p"))]
              (EvThreads {| videoId := "dQw4w9WgXcQ"; maxResults := 9;
                            pageToken := Some "QURTSl9p" |} ThreadsError)
              [] eq_refl eq_refl)
    as [rq [resp [He [Hvid [Hmax [Hrange [Htok _]]]]]]].
  exists rq, resp. repeat split; assumption || apply Hrange.
Defined.

(** X5.  When no request fails, what [get_comments] returns is every item
    of every page it was answered with, in order: a page is never cut, so
    an API that answers with more than [maxResults] items makes the result
    longer than [max_comments]. *)
Theorem get_comments_keeps_every_item
    (S : Type) (threads_list : S -> threads_request -> threads_response * S)
    (fuel : nat) (video_id : string) (max_comments : Z) (s : S)
    (cs : list comment) (tr : list event) (s' : S) :
  get_comments threads_list fuel video_id max_comments s = (Ret cs, tr, s') ->
  no_failure tr ->
  cs = accumulated tr.
Proof.
  intros Hrun Hok.
  apply get_comments_trace in Hrun as [r1 [Hloop Hr]].
  apply fetch_loop_cases in Hloop.
  destruct Hloop as [[_ [tr0 [rq [-> _]]]] | [[-> | ->] _]].
  - now apply no_failure_app_failure in Hok.
  - destruct Hr as [[Hr _] | [_ Hr]]; discriminate.
  - destruct Hr as [[Hr _] | [_ Hr]]; [discriminate|].
    injection Hr as ->. reflexivity.
Qed.

Lemma get_comments_keeps_every_item_witness :
  exists cs tr,
    get_comments (MoreExamples.generous_threads Examples.three_comments) 1
                 "dQw4w9WgXcQ" 1 tt = (Ret cs, tr, tt) /\
    List.length cs = 3 /\ cs = accumulated tr.
Proof.
  eexists _, _. split; [reflexivity|]. split; [reflexivity|].
  eapply (get_comments_keeps_every_item unit
            (MoreExamples.generous_threads Examples.three_comments) 1
            "dQw4w9WgXcQ" 1 tt).
  - reflexivity.
  - intros e [<- | []]. reflexivity.
Defined.

(** X6.  [get_comments] does not end against an API that keeps answering
    with an empty page and a continuation token: for a positive
    [max_comments], every bound on the number of requests is reached, with
    that many requests sent and no comment collected. *)
Theorem get_comments_stalls
    (S : Type) (threads_list : S -> threads_request -> threads_response * S)
    (video_id : string) (max_comments : Z) :
  (forall s rq, exists tok s',
      threads_list s rq = (ThreadsPage [] (Some tok), s') /\
      tok <> EmptyString) ->
  (0 < max_comments)%Z ->
  forall fuel s, exists tr s',
    get_comments threads_list fuel video_id max_comments s = (Fuel, tr, s') /\
    List.length tr = fuel /\ accumulated tr = [].
Proof.
  intros Hstall Hpos fuel s. unfold get_comments.
  assert (Hloop : forall tok count comments s0,
             (count < max_comments)%Z ->
             exists tr s',
               fetch_loop threads_list fuel video_id max_comments tok count
                          comments s0 = (Fuel, tr, s') /\
               List.length tr = fuel /\ accumulated tr = []).
  { induction fuel as [|fuel IH]; intros tok count comments s0 Hlt;
      cbn [fetch_loop];
      destruct (Z.ltb_spec count max_comments) as [_|]; try lia.
    - now exists [], s0.
    - destruct (Hstall s0 {| videoId := video_id;
                             maxResults := Z.min 100 (max_comments - count);
                             pageToken := tok |}) as [next [s1 [-> Hne]]].
      assert (Ht : truthy (Some next) = true).
      { destruct next; [now destruct Hne | reflexivity]. }
      rewrite Ht. cbn [negb orb].
      change (Z.of_nat (List.length (@nil thread_item))) with 0%Z.
      destruct (Z.geb_spec (count + 0) max_comments); [lia|].
      destruct (IH (Some next) (count + 0)%Z
                   (comments ++ map comment_of_item []) s1)
        as [tr [s' [-> [Hlen Hacc]]]]; [lia|].
      eexists _, _. split; [reflexivity|].
      cbn [List.length accumulated map app]. now rewrite Hlen, Hacc. }
  destruct (Hloop None 0%Z [] s Hpos) as [tr [s' [-> H]]]. now exists tr, s'.
Qed.

Lemma get_comments_stalls_witness :
  exists tr s',
    get_comments MoreExamples.stalling_threads 7 "dQw4w9WgXcQ" 5 tt
    = (Fuel, tr, s') /\
    List.length tr = 7 /\ accumulated tr = [].
Proof.
  apply (get_comments_stalls unit MoreExamples.stalling_threads
           "dQw4w9WgXcQ" 5).
  - intros s rq. exists "again", s. split; [reflexivity | discriminate].
  - lia.
Defined.

(* ===================================================================== *)
(** ** Further properties of the Sentiment Annotator                     *)
(* ===================================================================== *)

Section AnnotatorMore.

Variable scorer : string -> float * float.

Lemma annotated_with_twice (text : string) (c : comment) :
  annotated_with scorer text (annotated_with scorer text c)
  = annotated_with scorer text c.
Proof.
  unfold annotated_with. apply map_eq. intros k.
  rewrite !lookup_insert. repeat case_decide; reflexivity.
Qed.

Lemma annotated_with_text (text : string) (c : comment) :
  c !! "text" = Some (VStr text) ->
  annotated_with scorer text c !! "text" = Some (VStr text).
Proof.
  intros H. destruct (annotated_with_lookup scorer text c) as [_ [_ [_ Hf]]].
  rewrite Hf; [exact H|]. intros [|[|]]; discriminate.
Qed.

Lemma annotate_inl (c : comment) (e : pyerr) :
  annotate scorer c = inl e <->
  (c !! "text" = None /\ e = KeyError "text") \/
  (exists v, c !! "text" = Some v /\ (forall t, v <> VStr t) /\ e = TypeError).
Proof.
  destruct (c !! "text") as [[text|z|f]|] eqn:Htext.
  - rewrite (annotate_text scorer c text Htext). split; [discriminate|].
    intros [[H _] | [v [[= <-] [Hv _]]]]; [discriminate|]. now destruct (Hv text).
  - unfold annotate. rewrite Htext. split.
    + intros [= <-]. right. exists (VInt z). repeat split. discriminate.
    + intros [[H _] | [v [_ [_ ->]]]]; [discriminate | reflexivity].
  - unfold annotate. rewrite Htext. split.
    + intros [= <-]. right. exists (VFloat f). repeat split. discriminate.
    + intros [[H _] | [v [_ [_ ->]]]]; [discriminate | reflexivity].
  - unfold annotate. rewrite Htext. split.
    + intros [= <-]. left. tauto.
    + intros [[_ ->] | [v [H _]]]; [reflexivity | discriminate].
Qed.

Lemma analyze_sentiment_app (a b : list comment) :
  analyze_sentiment scorer (a ++ b)
  = match analyze_sentiment scorer a with
    | inl e => inl e
    | inr a' =>
        match analyze_sentiment scorer b with
        | inl e => inl e
        | inr b' => inr (a' ++ b')
        end
    end.
Proof.
  induction a as [|c a IH]; cbn [analyze_sentiment app].
  - now destruct (analyze_sentiment scorer b).
  - destruct (annotate scorer c); [reflexivity|].
    rewrite IH. destruct (analyze_sentiment scorer a); [reflexivity|].
    now destruct (analyze_sentiment scorer b).
Qed.

End AnnotatorMore.

(** X8.  Annotating again changes nothing: [analyze_sentiment] applied to
    what it returned returns it as it is. *)
Theorem analyze_sentiment_idempotent
    (scorer : string -> float * float) (comments annotated : list comment) :
  analyze_sentiment scorer comments = inr annotated ->
  analyze_sentiment scorer annotated = inr annotated.
Proof.
  intros H. apply analyze_sentiment_inr in H.
  induction H as [|c c' rest rest' [text [Htext ->]] _ IH]; [reflexivity|].
  cbn [analyze_sentiment].
  rewrite (annotate_text scorer _ text (annotated_with_text scorer text c Htext)).
  now rewrite annotated_with_twice, IH.
Qed.

Lemma analyze_sentiment_idempotent_witness :
  exists annotated,
    analyze_sentiment Examples.toy_scorer
      [comment_of_item (Examples.item "bob" "terrible waste of time" 7)]
    = inr annotated /\
    analyze_sentiment Examples.toy_scorer annotated = inr annotated.
Proof.
  eexists. split; [reflexivity|].
  apply (analyze_sentiment_idempotent Examples.toy_scorer
           [comment_of_item (Examples.item "bob" "terrible waste of time" 7)]).
  reflexivity.
Defined.

(** X9.  [analyze_sentiment] raises exactly when some comment has no text
    that is a string, and the exception is that of the first such comment:
    [KeyError] when the key [text] is absent, [TypeError] when its value is
    not a string. *)
Theorem analyze_sentiment_first_error
    (scorer : string -> float * float) (comments : list comment) (e : pyerr) :
  analyze_sentiment scorer comments = inl e <->
  exists before c after,
    comments = before ++ c :: after /\
    Forall has_text before /\
    ((c !! "text" = None /\ e = KeyError "text") \/
     (exists v, c !! "text" = Some v /\ (forall t, v <> VStr t) /\
                e = TypeError)).
Proof.
  split.
  - induction comments as [|c rest IH]; cbn [analyze_sentiment];
      [discriminate|].
    destruct (annotate scorer c) as [e'|c'] eqn:Hc.
    + intros [= <-]. exists [], c, rest. split; [reflexivity|].
      split; [apply List.Forall_nil|].
      exact (proj1 (annotate_inl scorer c e') Hc).
    + destruct (analyze_sentiment scorer rest) as [e'|rest']; [|discriminate].
      intros [= <-]. destruct (IH eq_refl) as [before [d [after [-> [Hb Hd]]]]].
      exists (c :: before), d, after. split; [reflexivity|].
      split; [|exact Hd]. constructor; [|exact Hb].
      apply annotate_inr in Hc as [text [Htext _]]. now exists text.
  - intros [before [c [after [-> [Hb Hc]]]]].
    rewrite analyze_sentiment_app.
    destruct (analyze_sentiment_total scorer before Hb) as [b' ->].
    cbn [analyze_sentiment].
    now rewrite (proj2 (annotate_inl scorer c e) Hc).
Qed.

(** X10.  Comments are annotated one by one, none depending on another:
    a sequence put together from two is annotated exactly when both parts
    are, and its annotation is then put together from theirs. *)
Theorem analyze_sentiment_concat
    (scorer : string -> float * float) (a b annotated : list comment) :
  analyze_sentiment scorer (a ++ b) = inr annotated <->
  exists a' b',
    analyze_sentiment scorer a = inr a' /\
    analyze_sentiment scorer b = inr b' /\
    annotated = a' ++ b'.
Proof.
  rewrite analyze_sentiment_app. split.
  - destruct (analyze_sentiment scorer a) as [e|a']; [discriminate|].
    destruct (analyze_sentiment scorer b) as [e|b']; [discriminate|].
    intros [= <-]. now exists a', b'.
  - intros [a' [b' [-> [-> ->]]]]. reflexivity.
Qed.

(* ===================================================================== *)
(** ** Further properties of the Lexical Aggregator                      *)
(* ===================================================================== *)

Section AggregatorMore.

Local Notation "a +++ b" := (String.append a b) (at level 60, right associativity).

Lemma alpha_is_word (c : ascii) :
  Chars.is_alpha c = true -> Chars.is_word c = true.
Proof. destruct c as [[] [] [] [] [] [] [] []]; intros H; (reflexivity || discriminate H). Qed.

Lemma lower_char_idempotent (c : ascii) :
  Chars.lower_char (Chars.lower_char c) = Chars.lower_char c.
Proof. destruct c as [[] [] [] [] [] [] [] []]; reflexivity. Qed.

Lemma lower_idempotent (s : string) :
  Chars.lower (Chars.lower s) = Chars.lower s.
Proof.
  induction s as [|c s IH]; cbn [Chars.lower]; [reflexivity|].
  now rewrite lower_char_idempotent, IH.
Qed.

Lemma span_alpha_app (s run rest : string) :
  span_alpha s = (run, rest) -> s = run +++ rest.
Proof.
  revert run rest. induction s as [|a s IH]; intros run rest H;
    cbn [span_alpha] in H.
  - now injection H as <- <-.
  - destruct (Chars.is_alpha a).
    + destruct (span_alpha s) as [run' rest'].
      injection H as <- <-. rewrite append_cons. f_equal. now apply IH.
    + now injection H as <- <-.
Qed.

Lemma last_char_alpha (prev : option ascii) (run : string) :
  run <> EmptyString ->
  (forall c, In c (list_ascii_of_string run) -> Chars.is_alpha c = true) ->
  is_word_opt (last_char prev run) = true.
Proof.
  revert prev. induction run as [|a run IH]; intros prev Hne Hall;
    [now destruct Hne|].
  cbn [last_char]. destruct run as [|b run].
  - cbn. apply alpha_is_word, Hall. now left.
  - apply IH; [discriminate|]. intros c Hc. apply Hall. now right.
Qed.

Lemma match_word_delimited (n : nat) (prev : option ascii) (s t : string) :
  match_word n prev s = Some t -> t <> EmptyString ->
  is_word_opt prev = false /\
  exists rest, s = t +++ rest /\ is_word_opt (head_char rest) = false.
Proof.
  unfold match_word. destruct (word_boundary prev s) eqn:Hstart; [|discriminate].
  destruct (span_alpha s) as [run rest] eqn:Hspan.
  destruct ((1 <=? String.length run) && (n <=? String.length run)
            && word_boundary (last_char prev run) rest) eqn:Hfull.
  - intros [= <-] Hne.
    apply andb_prop in Hfull as [_ Hend].
    pose proof (span_alpha_app s run rest Hspan) as Hs.
    pose proof (span_alpha_spec s run rest Hspan) as Hrun.
    assert (Hlast : is_word_opt (last_char prev run) = true).
    { apply last_char_alpha; [exact Hne|]. intros c Hc. now apply Hrun. }
    split.
    + destruct run as [|a run]; [now destruct Hne|].
      unfold word_boundary in Hstart. rewrite Hs, append_cons in Hstart.
      cbn [head_char is_word_opt] in Hstart.
      rewrite alpha_is_word in Hstart by (apply Hrun; now left).
      now destruct (is_word_opt prev).
    + exists rest. split; [exact Hs|].
      unfold word_boundary in Hend. rewrite Hlast in Hend.
      now destruct (is_word_opt (head_char rest)).
  - destruct (n =? 0); [|discriminate]. intros [= <-] Hne. now destruct Hne.
Qed.

Lemma findall_from_delimited (n : nat) (s : string) :
  forall prev skip t,
    In t (findall_from n prev s skip) -> t <> EmptyString ->
    exists pre post,
      s = pre +++ t +++ post /\
      is_word_opt (last_char prev pre) = false /\
      is_word_opt (head_char post) = false.
Proof.
  induction s as [|a s IH]; intros prev skip t Hin Hne;
    cbn [findall_from] in Hin.
  - destruct skip; [|destruct Hin].
    destruct (match_word n prev EmptyString) as [t'|] eqn:Hm; [|destruct Hin].
    destruct Hin as [<- | []].
    destruct (match_word_delimited n prev _ _ Hm Hne) as [Hp [rest [Hs Hr]]].
    exists EmptyString, rest. repeat split; assumption.
  - assert (Hrest : forall skip',
               In t (findall_from n (Some a) s skip') ->
               exists pre post,
                 String a s = pre +++ t +++ post /\
                 is_word_opt (last_char prev pre) = false /\
                 is_word_opt (head_char post) = false).
    { intros skip' H. destruct (IH (Some a) skip' t H Hne)
        as [pre [post [Hs [Hp Hq]]]].
      exists (String a pre), post. rewrite append_cons, <- Hs.
      repeat split; assumption. }
    destruct skip as [|k]; [|now apply (Hrest k)].
    destruct (match_word n prev (String a s)) as [t'|] eqn:Hm; [|eauto].
    destruct Hin as [<- | Hin]; [|eauto].
    destruct (match_word_delimited n prev _ _ Hm Hne) as [Hp [rest [Hs Hr]]].
    exists EmptyString, rest. repeat split; assumption.
Qed.

Lemma counter_incr_sum (w : string) (c : list (string * nat)) :
  list_sum (map snd (counter_incr w c)) = Datatypes.S (list_sum (map snd c)).
Proof.
  induction c as [|[k v] c IH]; cbn [counter_incr]; [reflexivity|].
  destruct (String.eqb k w); simpl; [lia|].
  simpl in IH. rewrite IH. lia.
Qed.

Lemma Counter_sum (ws : list string) :
  list_sum (map snd (Counter ws)) = List.length ws.
Proof.
  induction ws as [|w ws IH] using rev_ind; [reflexivity|].
  unfold Counter in *. rewrite fold_left_app. cbn [fold_left].
  rewrite counter_incr_sum, IH, length_app. cbn. lia.
Qed.

Lemma list_sum_firstn (n : nat) (l : list nat) :
  list_sum (firstn n l) <= list_sum l.
Proof.
  rewrite <- (firstn_skipn n l) at 2. rewrite list_sum_app. lia.
Qed.

Lemma list_sum_perm (l l' : list nat) :
  Permutation l l' -> list_sum l = list_sum l'.
Proof. induction 1; simpl; lia. Qed.

Lemma words_of_lower_text (n : nat) (sw : gset string) (c : comment) :
  words_of n sw (lower_text c) = words_of n sw c.
Proof.
  unfold lower_text. destruct (c !! "text") as [[text| |]|] eqn:Ht;
    try reflexivity.
  unfold words_of. now rewrite lookup_insert_eq, Ht, lower_idempotent.
Qed.

Lemma words_of_stopwords_ext (n : nat) (sw sw' : gset string) (c : comment) :
  (forall w, token_shaped n w -> (w ∈ sw <-> w ∈ sw')) ->
  words_of n sw c = words_of n sw' c.
Proof.
  intros Hext. unfold words_of.
  destruct (c !! "text") as [[text| |]|]; try reflexivity.
  f_equal. apply filter_ext_in. intros w Hw.
  apply (findall_from_tokens n _ None 0) in Hw as [Hlen Hch].
  assert (Hshape : token_shaped n w).
  { split; [exact Hlen|]. intros ch Hc. destruct (Hch ch Hc) as [Ha Hin].
    apply alpha_not_upper; [exact Ha|]. now apply (lower_not_upper text). }
  f_equal. apply bool_decide_ext. now apply Hext.
Qed.

End AggregatorMore.

(** X11.  A word is counted only where it stands alone: every token taken
    from a text stands in its lowercase form between two characters that
    are no word characters (letters, digits, underscore) or at an end of
    the text, so letters joined to a digit or an underscore give no
    token. *)
Theorem words_of_delimited
    (min_length : nat) (stopwords : gset string) (c : comment)
    (text : string) (words : list string) (w : string) :
  c !! "text" = Some (VStr text) ->
  words_of min_length stopwords c = inr words ->
  In w words -> w <> EmptyString ->
  exists pre post,
    Chars.lower text = String.append pre (String.append w post) /\
    is_word_opt (last_char None pre) = false /\
    is_word_opt (head_char post) = false.
Proof.
  intros Htext Hwords Hin Hne. unfold words_of in Hwords.
  rewrite Htext in Hwords. injection Hwords as <-.
  apply filter_In in Hin as [Hin _].
  now apply (findall_from_delimited min_length _ None 0).
Qed.

Lemma words_of_delimited_witness :
  words_of 4 default_stopwords
    (comment_of_item (Examples.item "dan" "Nice snake_case, hello123 World" 0))
  = inr ["nice"; "world"] /\
  exists pre post,
    Chars.lower "Nice snake_case, hello123 World"
    = String.append pre (String.append "world" post) /\
    is_word_opt (last_char None pre) = false /\
    is_word_opt (head_char post) = false.
Proof.
  split; [vm_compute; reflexivity|].
  apply (words_of_delimited 4 default_stopwords
           (comment_of_item
              (Examples.item "dan" "Nice snake_case, hello123 World" 0))
           "Nice snake_case, hello123 World" ["nice"; "world"] "world").
  - apply comment_of_item_text.
  - vm_compute. reflexivity.
  - right. now left.
  - discriminate.
Defined.

(** X12.  The tokens [extract_common_words] returns are distinct and their
    counts add up to at most the number of words found; when [max_words]
    is at least the number of distinct words, nothing is left out: the
    result is the whole counter, every word found is listed, and the counts
    add up to the number of words. *)
Theorem extract_common_words_counts
    (comments : list comment) (min_length max_words : nat)
    (stopwords : option (gset string)) :
  Forall has_text comments ->
  exists words out,
    all_words min_length (stopwords_or_default stopwords) comments = inr words /\
    extract_common_words comments min_length max_words stopwords = inr out /\
    List.NoDup (map fst out) /\
    list_sum (map snd out) <= List.length words /\
    (List.length (Counter words) <= max_words ->
       Permutation out (Counter words) /\
       list_sum (map snd out) = List.length words /\
       forall w, In w words -> In w (map fst out)).
Proof.
  intros Htexts.
  destruct (all_words_total min_length (stopwords_or_default stopwords)
              comments Htexts) as [words Hwords].
  exists words, (most_common max_words (Counter words)).
  split; [exact Hwords|]. split.
  { unfold extract_common_words. cbv zeta. now rewrite Hwords. }
  destruct (Counter_spec words) as [Hnd [Hkeys _]].
  unfold most_common.
  set (sorted := sorted_desc (fun a b => (snd b <=? snd a)%nat) (Counter words)).
  assert (Hperm : Permutation sorted (Counter words)) by apply sorted_desc_perm.
  split; [|split].
  - rewrite <- firstn_map. apply NoDup_firstn.
    apply (Permutation_NoDup (l := map fst (Counter words))); [|exact Hnd].
    symmetry. now apply Permutation_map.
  - rewrite <- firstn_map.
    etransitivity; [apply list_sum_firstn|].
    rewrite (list_sum_perm _ (map snd (Counter words)))
      by now apply Permutation_map.
    now rewrite Counter_sum.
  - intros Hall.
    rewrite firstn_all2 by now rewrite (Permutation_length Hperm).
    split; [exact Hperm|]. split.
    + rewrite (list_sum_perm _ (map snd (Counter words)))
        by now apply Permutation_map.
      apply Counter_sum.
    + intros w Hw. apply Hkeys in Hw.
      revert Hw. apply Permutation_in. symmetry. now apply Permutation_map.
Qed.

Lemma extract_common_words_counts_witness :
  exists words out,
    all_words 4 (stopwords_or_default None)
      [comment_of_item (Examples.item "bob" "terrible waste of time" 7)]
    = inr words /\
    extract_common_words
      [comment_of_item (Examples.item "bob" "terrible waste of time" 7)]
      4 2 None = inr out /\
    List.NoDup (map fst out) /\
    list_sum (map snd out) <= List.length words /\
    (List.length (Counter words) <= 2 ->
       Permutation out (Counter words) /\
       list_sum (map snd out) = List.length words /\
       forall w, In w words -> In w (map fst out)).
Proof.
  apply (extract_common_words_counts
           [comment_of_item (Examples.item "bob" "terrible waste of time" 7)]
           4 2 None).
  repeat constructor. eexists. apply comment_of_item_text.
Defined.

(** X13.  Letter case does not count: putting the text of every comment in
    lowercase beforehand leaves the result of [extract_common_words] as it
    is. *)
Theorem extract_common_words_case_insensitive
    (comments : list comment) (min_length max_words : nat)
    (stopwords : option (gset string)) :
  extract_common_words (map lower_text comments) min_length max_words stopwords
  = extract_common_words comments min_length max_words stopwords.
Proof.
  unfold extract_common_words. cbv zeta.
  assert (H : all_words min_length (stopwords_or_default stopwords)
                (map lower_text comments)
              = all_words min_length (stopwords_or_default stopwords) comments).
  { induction comments as [|c cs IH]; cbn [map all_words]; [reflexivity|].
    now rewrite words_of_lower_text, IH. }
  now rewrite H.
Qed.

(** X14.  Only stop words that have the shape of a token matter: two
    stop-word sets that hold the same strings of lowercase letters of
    length at least [min_length] give the same result, so a stop word that
    is shorter than [min_length], or holds a capital, a digit or any other
    character, never removes anything. *)
Theorem extract_common_words_inert_stopwords
    (comments : list comment) (min_length max_words : nat)
    (sw sw' : gset string) :
  (forall w, token_shaped min_length w -> (w ∈ sw <-> w ∈ sw')) ->
  extract_common_words comments min_length max_words (Some sw)
  = extract_common_words comments min_length max_words (Some sw').
Proof.
  intros Hext. unfold extract_common_words. cbv zeta.
  cbn [stopwords_or_default].
  assert (H : all_words min_length sw comments
              = all_words min_length sw' comments).
  { induction comments as [|c cs IH]; cbn [all_words]; [reflexivity|].
    now rewrite (words_of_stopwords_ext min_length sw sw' c Hext), IH. }
  now rewrite H.
Qed.

Lemma extract_common_words_inert_stopwords_witness :
  extract_common_words
    [comment_of_item (Examples.item "eve" "the The end" 0)] 3 10
    (Some ({["The"]} ∪ {["of"]}))
  = extract_common_words
      [comment_of_item (Examples.item "eve" "the The end" 0)] 3 10 (Some ∅).
Proof.
  apply (extract_common_words_inert_stopwords
           [comment_of_item (Examples.item "eve" "the The end" 0)] 3 10
           ({["The"]} ∪ {["of"]}) ∅).
  intros w [Hlen Hlow]. split; [|set_solver].
  intros Hw. exfalso.
  apply elem_of_union in Hw as [Hw | Hw]; apply elem_of_singleton in Hw; subst w.
  - specialize (Hlow "T"%char (or_introl eq_refl)). discriminate Hlow.
  - cbn in Hlen. lia.
Defined.

(* ===================================================================== *)
(** ** Further properties of the Report Compiler                         *)
(* ===================================================================== *)

Section ReportMore.

Variable S : Type.
Variable videos_list : S -> string -> videos_response * S.
Variable threads_list : S -> threads_request -> threads_response * S.
Variable scorer : string -> float * float.
Variable series_mean : list float -> float.
Variable argsort_desc : list Z -> list nat.

(** What [get_comments] returns, read off its trace. *)
Lemma get_comments_ret_cases (fuel : nat) (video_id : string)
    (max_comments : Z) (s : S) (cs : list comment) (tr : list event) (s' : S) :
  get_comments threads_list fuel video_id max_comments s = (Ret cs, tr, s') ->
  (cs = [] /\ exists tr0 rq, tr = tr0 ++ [EvThreads rq ThreadsError]) \/
  (cs = accumulated tr /\ no_failure tr).
Proof.
  intros Hrun. apply get_comments_trace in Hrun as [r1 [Hloop Hr]].
  apply fetch_loop_cases in Hloop.
  destruct Hloop as [[-> [tr0 [rq [-> _]]]] | [[-> | ->] Hok]].
  - left. destruct Hr as [[_ Hr] | [Hr _]]; [|congruence].
    injection Hr as ->. split; [reflexivity | now exists tr0, rq].
  - destruct Hr as [[Hr _] | [_ Hr]]; discriminate.
  - right. destruct Hr as [[Hr _] | [_ Hr]]; [discriminate|].
    injection Hr as ->. split; [reflexivity | exact Hok].
Qed.

(** Everything about a run that gives a report. *)
Lemma generate_report_report (fuel : nat) (url : string) (max_comments : Z)
    (s : S) (rep : report) (tr : list event) (s' : S) :
  generate_report videos_list threads_list scorer series_mean argsort_desc
                  fuel url max_comments s = (Ret (Report rep), tr, s') ->
  exists v item items s1 tr2 c cs annotated words,
    extract_video_id url = Some v /\
    videos_list s v = (VideosOk (item :: items), s1) /\
    get_comments threads_list fuel v max_comments s1 = (Ret (c :: cs), tr2, s') /\
    tr = EvVideos v (VideosOk (item :: items)) :: tr2 /\
    analyze_sentiment scorer (c :: cs) = inr annotated /\
    extract_common_words annotated 4 100 None = inr words /\
    rep = {| video_details_of :=
               {| title := snippet_title item;
                  channel := snippet_channelTitle item;
                  published_at := snippet_publishedAt item;
                  view_count := default 0%Z (statistics_viewCount item);
                  like_count := default 0%Z (statistics_likeCount item);
                  comment_count := default 0%Z (statistics_commentCount item);
                  duration := contentDetails_duration item |};
             total_analyzed := List.length annotated;
             sentiment_distribution :=
               value_counts (str_column "sentiment" annotated);
             avg_polarity := series_mean (float_column "polarity" annotated);
             avg_subjectivity :=
               series_mean (float_column "subjectivity" annotated);
             common_words := words;
             top_comments :=
               firstn 5 (sort_values_like_count argsort_desc annotated);
             all_comments := annotated |}.
Proof.
  unfold generate_report.
  destruct (extract_video_id url) as [v|] eqn:Hv; [|discriminate].
  destruct v as [|a v0]; [discriminate|].
  unfold get_video_details.
  destruct (videos_list s (String a v0)) as [resp s1] eqn:Hvid.
  destruct resp as [|[|item items]]; try discriminate.
  destruct (get_comments threads_list fuel (String a v0) max_comments s1)
    as [[r2 tr2] s2] eqn:Hgc.
  destruct r2 as [[|c cs]|e|]; try discriminate.
  destruct (analyze_sentiment scorer (c :: cs)) as [e|annotated] eqn:Hann;
    [discriminate|].
  destruct (extract_common_words annotated 4 100 None) as [e|words] eqn:Hcw;
    [discriminate|].
  intros [= <- <- <-].
  exists (String a v0), item, items, s1, tr2, c, cs, annotated, words.
  repeat split; assumption || reflexivity.
Qed.

Lemma sentiment_label_cases (p : float) :
  sentiment_label p = "positive" \/ sentiment_label p = "negative" \/
  sentiment_label p = "neutral".
Proof.
  unfold sentiment_label.
  destruct (PrimFloat.ltb pos_threshold p); [now left|].
  destruct (PrimFloat.ltb p neg_threshold); [right; now left | right; now right].
Qed.

Lemma value_counts_lookup (col : list string) (l : string) :
  value_counts col !! l
  = match count_occ string_dec col l with
    | O => None
    | Datatypes.S k => Some (Datatypes.S k)
    end.
Proof.
  induction col as [|x col IH]; [reflexivity|].
  cbn [value_counts fold_right count_occ].
  fold (value_counts col).
  destruct (string_dec x l) as [->|Hne].
  - rewrite lookup_insert_eq, IH.
    now destruct (count_occ string_dec col l).
  - now rewrite lookup_insert_ne.
Qed.

Lemma str_column_cons (key : string) (c : comment) (rows : list comment) :
  str_column key (c :: rows)
  = match c !! key with
    | Some (VStr s) => s :: str_column key rows
    | _ => str_column key rows
    end.
Proof. unfold str_column. cbn. now destruct (c !! key) as [[]|]. Qed.

Lemma count_labelled (rows : list comment) (l : string) :
  count_occ string_dec (str_column "sentiment" rows) l = labelled l rows.
Proof.
  unfold labelled. induction rows as [|c rows IH]; [reflexivity|].
  rewrite str_column_cons. cbn [List.filter]. unfold has_label at 1.
  destruct (c !! "sentiment") as [[s|z|f]|]; try exact IH.
  cbn [count_occ]. destruct (string_dec s l) as [->|Hne].
  - rewrite String.eqb_refl. cbn [List.length]. now rewrite IH.
  - apply String.eqb_neq in Hne. now rewrite Hne.
Qed.

Lemma has_label_annotated (l text : string) (c : comment) :
  has_label l (annotated_with scorer text c)
  = String.eqb (sentiment_label (fst (scorer text))) l.
Proof.
  unfold has_label.
  now destruct (annotated_with_lookup scorer text c) as [_ [_ [-> _]]].
Qed.

Lemma labelled_annotated (comments annotated : list comment) :
  analyze_sentiment scorer comments = inr annotated ->
  labelled "positive" annotated + labelled "negative" annotated
  + labelled "neutral" annotated = List.length annotated.
Proof.
  intros H. apply analyze_sentiment_inr in H. unfold labelled.
  induction H as [|c c' rest rest' [text [_ ->]] _ IH]; [reflexivity|].
  cbn [List.filter]. rewrite !has_label_annotated.
  destruct (sentiment_label_cases (fst (scorer text))) as [-> | [-> | ->]];
    simpl (String.eqb _ _); cbn [List.length]; lia.
Qed.

End ReportMore.

(** X15.  A request for comments that fails makes [generate_report] report
    that there are no comments, also when pages of comments had been
    fetched before the failure. *)
Theorem generate_report_failure_is_no_comments
    (S : Type) (videos_list : S -> string -> videos_response * S)
    (threads_list : S -> threads_request -> threads_response * S)
    (scorer : string -> float * float) (series_mean : list float -> float)
    (argsort_desc : list Z -> list nat)
    (fuel : nat) (url : string) (max_comments : Z) (s : S)
    (r : run result) (tr : list event) (s' : S) :
  generate_report videos_list threads_list scorer series_mean argsort_desc
                  fuel url max_comments s = (r, tr, s') ->
  (exists rq, In (EvThreads rq ThreadsError) tr) ->
  r = Ret (Error no_comments).
Proof.
  intros Hrun [rq Hin]. apply generate_report_cases in Hrun.
  destruct Hrun as [[_ [_ [-> _]]] | [v [resp [s1 [_ [_ Hrest]]]]]];
    [destruct Hin|].
  destruct Hrest as [[_ [_ [-> _]]] | [item [items [r2 [tr2 Hrest]]]]].
  { destruct Hin as [Hin | []]. discriminate Hin. }
  destruct Hrest as [_ [Hgc [-> Hcases]]].
  destruct Hin as [Hin | Hin]; [discriminate Hin|].
  apply get_comments_trace in Hgc as [r1 [Hloop Hr]].
  apply fetch_loop_cases in Hloop.
  destruct Hloop as [[-> _] | [_ Hok]].
  - destruct Hr as [[_ ->] | [Hr _]]; [|congruence].
    destruct Hcases as [[Hr _] | [[_ ->] | [c [cs [a [rep [Hr _]]]]]]];
      (discriminate Hr || reflexivity).
  - apply Hok in Hin. discriminate Hin.
Qed.

Lemma generate_report_failure_is_no_comments_witness :
  fst (fst (generate_report Examples.flaky_videos Examples.flaky_threads
              Examples.toy_scorer Examples.toy_mean Examples.argsort_stable 10
              "https://youtu.be/dQw4w9WgXcQ" 10 0))
  = Ret (Error no_comments).
Proof.
  destruct (generate_report Examples.flaky_videos Examples.flaky_threads
              Examples.toy_scorer Examples.toy_mean Examples.argsort_stable 10
              "https://youtu.be/dQw4w9WgXcQ" 10 0) as [[r tr] s'] eqn:Hrun.
  cbn [fst].
  apply (generate_report_failure_is_no_comments nat Examples.flaky_videos
           Examples.flaky_threads Examples.toy_scorer Examples.toy_mean
           Examples.argsort_stable 10 "https://youtu.be/dQw4w9WgXcQ" 10 0
           r tr s' Hrun).
  injection Hrun as _ <- _. eexists. right. right. left. reflexivity.
Defined.

(** X16.  A report is never about nothing: every report counts at least one
    comment, [total_analyzed] is the number of its comments, no request of
    the run failed, and its comments are the annotations of all the
    comments of all the pages fetched, in fetch order. *)
Theorem generate_report_comments
    (S : Type) (videos_list : S -> string -> videos_response * S)
    (threads_list : S -> threads_request -> threads_response * S)
    (scorer : string -> float * float) (series_mean : list float -> float)
    (argsort_desc : list Z -> list nat)
    (fuel : nat) (url : string) (max_comments : Z) (s : S)
    (rep : report) (tr : list event) (s' : S) :
  generate_report videos_list threads_list scorer series_mean argsort_desc
                  fuel url max_comments s = (Ret (Report rep), tr, s') ->
  1 <= total_analyzed rep /\
  total_analyzed rep = List.length (all_comments rep) /\
  total_analyzed rep = List.length (accumulated tr) /\
  no_failure tr /\
  analyze_sentiment scorer (accumulated tr) = inr (all_comments rep).
Proof.
  intros Hrun. apply generate_report_report in Hrun
    as [v [item [items [s1 [tr2 [c [cs [annotated [words
         [_ [_ [Hgc [-> [Hann [_ ->]]]]]]]]]]]]]]].
  cbn [total_analyzed all_comments accumulated].
  pose proof (analyze_sentiment_inr scorer _ _ Hann) as Hlen.
  apply Forall2_length in Hlen.
  apply get_comments_ret_cases in Hgc as [[Hnil _] | [Hacc Hok]];
    [discriminate Hnil|].
  rewrite <- Hacc. repeat split.
  - rewrite <- Hlen. cbn. lia.
  - now rewrite Hlen.
  - intros e [<- | He]; [reflexivity | now apply Hok].
  - exact Hann.
Qed.

Lemma generate_report_comments_witness :
  exists rep tr,
    generate_report Examples.one_video
      (Examples.paged_threads [Examples.item "ann" "great video loved it" 2] 2)
      Examples.toy_scorer Examples.toy_mean Examples.argsort_stable 3
      "https://youtu.be/dQw4w9WgXcQ" 10 tt = (Ret (Report rep), tr, tt) /\
    1 <= total_analyzed rep /\
    total_analyzed rep = List.length (all_comments rep) /\
    total_analyzed rep = List.length (accumulated tr) /\
    no_failure tr /\
    analyze_sentiment Examples.toy_scorer (accumulated tr)
    = inr (all_comments rep).
Proof.
  eexists _, _. split; [reflexivity|].
  eapply (generate_report_comments unit Examples.one_video
            (Examples.paged_threads
               [Examples.item "ann" "great video loved it" 2] 2)
            Examples.toy_scorer Examples.toy_mean Examples.argsort_stable 3
            "https://youtu.be/dQw4w9WgXcQ" 10 tt).
  reflexivity.
Defined.

Section ReportWords.

Variable scorer : string -> float * float.

Lemma words_of_annotated (n : nat) (sw : gset string) (text : string)
    (c : comment) :
  c !! "text" = Some (VStr text) ->
  words_of n sw (annotated_with scorer text c) = words_of n sw c.
Proof.
  intros H. unfold words_of.
  now rewrite (annotated_with_text scorer text c H), H.
Qed.

Lemma all_words_annotated (n : nat) (sw : gset string)
    (comments annotated : list comment) :
  analyze_sentiment scorer comments = inr annotated ->
  all_words n sw annotated = all_words n sw comments.
Proof.
  intros H. apply analyze_sentiment_inr in H.
  induction H as [|c c' rest rest' [text [Htext ->]] _ IH]; [reflexivity|].
  cbn [all_words]. now rewrite (words_of_annotated n sw text c Htext), IH.
Qed.

Lemma labelled_label (comments annotated : list comment) (l : string) :
  analyze_sentiment scorer comments = inr annotated ->
  labelled l annotated <> 0 ->
  l = "positive" \/ l = "negative" \/ l = "neutral".
Proof.
  intros H. apply analyze_sentiment_inr in H. unfold labelled.
  induction H as [|c c' rest rest' [text [_ ->]] _ IH]; [now intros []|].
  cbn [List.filter]. rewrite has_label_annotated.
  destruct (String.eqb_spec (sentiment_label (fst (scorer text))) l) as [<-|_];
    [intros _; apply sentiment_label_cases | exact IH].
Qed.

End ReportWords.

(** X17.  Against an API that serves the comments of the video in pages, a
    report never counts more comments than [max_comments]: its comments
    are the annotations of the first [max_comments] comments of the video,
    and [total_analyzed] is the smaller of [max_comments] and the number of
    comments there are. *)
Theorem generate_report_respects_max
    (S : Type) (videos_list : S -> string -> videos_response * S)
    (threads_list : S -> threads_request -> threads_response * S)
    (scorer : string -> float * float) (series_mean : list float -> float)
    (argsort_desc : list Z -> list nat)
    (fuel : nat) (url : string) (max_comments : Z) (s : S)
    (rep : report) (tr : list event) (s' : S)
    (v : string) (avail : list thread_item) (offset : option string -> nat) :
  extract_video_id url = Some v ->
  serves threads_list v avail offset ->
  generate_report videos_list threads_list scorer series_mean argsort_desc
                  fuel url max_comments s = (Ret (Report rep), tr, s') ->
  analyze_sentiment scorer
    (map comment_of_item (firstn (Z.to_nat max_comments) avail))
  = inr (all_comments rep) /\
  total_analyzed rep = Nat.min (List.length avail) (Z.to_nat max_comments) /\
  (Z.of_nat (total_analyzed rep) <= max_comments)%Z.
Proof.
  intros Hv Hserves Hrun. apply generate_report_report in Hrun
    as [v' [item [items [s1 [tr2 [c [cs [annotated [words
         [Hv' [_ [Hgc [_ [Hann [_ ->]]]]]]]]]]]]]]].
  assert (v' = v) by congruence. subst v'.
  cbn [total_analyzed all_comments].
  apply get_comments_trace in Hgc as [r1 [Hloop Hr]].
  assert (Hr1 : r1 = Ret (c :: cs)).
  { destruct Hr as [[_ Hr] | [_ Hr]]; [discriminate | congruence]. }
  subst r1.
  assert (Hpos : (0 < max_comments)%Z).
  { destruct (Z.lt_ge_cases 0 max_comments) as [|Hle]; [assumption|]. exfalso.
    destruct fuel; cbn [fetch_loop] in Hloop;
      destruct (Z.ltb_spec 0 max_comments); try lia; discriminate. }
  assert (Hnot : Ret (c :: cs) <> Fuel) by discriminate.
  pose proof (fetch_loop_more_fuel S threads_list _ _ _ _ _ _ _ _ _ _ Hloop
                Hnot (Z.to_nat max_comments)) as Hmore.
  destruct (fetch_loop_serves S threads_list v avail offset max_comments
              Hserves (fuel + Z.to_nat max_comments) None 0%Z [] s1)
    as [r [tr' [s'' [Hloop' Hres]]]].
  - destruct Hserves as [-> _]. reflexivity.
  - exact Hpos.
  - destruct Hserves as [-> _]. reflexivity.
  - lia.
  - rewrite Hmore in Hloop'. injection Hloop' as <- _ _.
    destruct Hres as [Hres | Hres]; [discriminate|]. injection Hres as Hcs.
    rewrite <- Hcs. split; [exact Hann|].
    pose proof (analyze_sentiment_inr scorer _ _ Hann) as Hlen.
    apply Forall2_length in Hlen. rewrite <- Hlen, Hcs.
    rewrite length_map, length_firstn. lia.
Qed.

Lemma generate_report_respects_max_witness :
  exists rep tr,
    generate_report Examples.one_video
      (Examples.paged_threads Examples.three_comments 1) Examples.toy_scorer
      Examples.toy_mean Examples.argsort_stable 4
      "https://youtu.be/dQw4w9WgXcQ" 2 tt = (Ret (Report rep), tr, tt) /\
    total_analyzed rep = Nat.min (List.length Examples.three_comments)
                                 (Z.to_nat 2) /\
    (Z.of_nat (total_analyzed rep) <= 2)%Z.
Proof.
  eexists _, _. split; [reflexivity|].
  eapply (generate_report_respects_max unit Examples.one_video
            (Examples.paged_threads Examples.three_comments 1)
            Examples.toy_scorer Examples.toy_mean Examples.argsort_stable 4
            "https://youtu.be/dQw4w9WgXcQ" 2 tt _ _ tt "dQw4w9WgXcQ"
            Examples.three_comments Examples.offset_of).
  - reflexivity.
  - apply paged_threads_serves. lia.
  - reflexivity.
Defined.

(** X18.  The sentiment distribution of a report holds, for each label, the
    number of comments of the report that carry it, and has no entry for a
    label that no comment carries; its labels are among [positive],
    [negative] and [neutral], and its counts add up to
    [total_analyzed]. *)
Theorem generate_report_sentiment_distribution
    (S : Type) (videos_list : S -> string -> videos_response * S)
    (threads_list : S -> threads_request -> threads_response * S)
    (scorer : string -> float * float) (series_mean : list float -> float)
    (argsort_desc : list Z -> list nat)
    (fuel : nat) (url : string) (max_comments : Z) (s : S)
    (rep : report) (tr : list event) (s' : S) :
  generate_report videos_list threads_list scorer series_mean argsort_desc
                  fuel url max_comments s = (Ret (Report rep), tr, s') ->
  (forall l,
     sentiment_distribution rep !! l
     = match labelled l (all_comments rep) with
       | O => None
       | Datatypes.S k => Some (Datatypes.S k)
       end) /\
  (forall l, is_Some (sentiment_distribution rep !! l) ->
     l = "positive" \/ l = "negative" \/ l = "neutral") /\
  labelled "positive" (all_comments rep)
  + labelled "negative" (all_comments rep)
  + labelled "neutral" (all_comments rep) = total_analyzed rep.
Proof.
  intros Hrun. apply generate_report_report in Hrun
    as [v [item [items [s1 [tr2 [c [cs [annotated [words
         [_ [_ [_ [_ [Hann [_ ->]]]]]]]]]]]]]]].
  cbn [sentiment_distribution all_comments total_analyzed].
  assert (Hlookup : forall l,
             value_counts (str_column "sentiment" annotated) !! l
             = match labelled l annotated with
               | O => None
               | Datatypes.S k => Some (Datatypes.S k)
               end).
  { intros l. now rewrite value_counts_lookup, count_labelled. }
  split; [exact Hlookup|]. split.
  - intros l [k Hk]. rewrite Hlookup in Hk.
    apply (labelled_label scorer (c :: cs) annotated l Hann).
    destruct (labelled l annotated); discriminate.
  - now apply (labelled_annotated scorer (c :: cs)).
Qed.

Lemma generate_report_sentiment_distribution_witness :
  exists rep tr,
    generate_report Examples.one_video
      (Examples.paged_threads Examples.three_comments 3) Examples.toy_scorer
      Examples.toy_mean Examples.argsort_stable 4
      "https://youtu.be/dQw4w9WgXcQ" 3 tt = (Ret (Report rep), tr, tt) /\
    labelled "positive" (all_comments rep)
    + labelled "negative" (all_comments rep)
    + labelled "neutral" (all_comments rep) = total_analyzed rep.
Proof.
  eexists _, _. split; [reflexivity|].
  eapply (generate_report_sentiment_distribution unit Examples.one_video
            (Examples.paged_threads Examples.three_comments 3)
            Examples.toy_scorer Examples.toy_mean Examples.argsort_stable 4
            "https://youtu.be/dQw4w9WgXcQ" 3 tt).
  reflexivity.
Defined.

(** X19.  The word table of a report is the one the raw comments give:
    annotation does not change it.  It is computed with the minimum length
    4, at most 100 entries and the default stop words, so it has at most
    100 entries and every word in it has at least 4 letters and is none of
    the default stop words. *)
Theorem generate_report_common_words
    (S : Type) (videos_list : S -> string -> videos_response * S)
    (threads_list : S -> threads_request -> threads_response * S)
    (scorer : string -> float * float) (series_mean : list float -> float)
    (argsort_desc : list Z -> list nat)
    (fuel : nat) (url : string) (max_comments : Z) (s : S)
    (rep : report) (tr : list event) (s' : S) :
  generate_report videos_list threads_list scorer series_mean argsort_desc
                  fuel url max_comments s = (Ret (Report rep), tr, s') ->
  extract_common_words (accumulated tr) 4 100 None = inr (common_words rep) /\
  List.length (common_words rep) <= 100 /\
  forall w k, In (w, k) (common_words rep) ->
    good_token 4 default_stopwords w.
Proof.
  intros Hrun. apply generate_report_report in Hrun
    as [v [item [items [s1 [tr2 [c [cs [annotated [words
         [_ [_ [Hgc [-> [Hann [Hcw ->]]]]]]]]]]]]]]].
  cbn [common_words accumulated].
  apply get_comments_ret_cases in Hgc as [[Hnil _] | [Hacc _]];
    [discriminate Hnil|].
  rewrite <- Hacc.
  unfold extract_common_words in Hcw |- *. cbv zeta in Hcw |- *.
  rewrite (all_words_annotated scorer _ _ _ _ Hann) in Hcw.
  split; [exact Hcw|].
  destruct (all_words 4 (stopwords_or_default None) (c :: cs))
    as [e|ws] eqn:Hws; [discriminate|].
  injection Hcw as <-.
  destruct (most_common_spec 100 ws) as [_ [Hlen Hsub]].
  split; [exact Hlen|].
  intros w k Hin. apply Hsub in Hin.
  destruct (Counter_spec ws) as [_ [Hkeys _]].
  apply all_words_tokens in Hws. rewrite List.Forall_forall in Hws.
  apply Hws, Hkeys. now apply (in_map fst) in Hin.
Qed.

Lemma generate_report_common_words_witness :
  exists rep tr,
    generate_report Examples.one_video
      (Examples.paged_threads [Examples.item "ann" "great video loved it" 2] 2)
      Examples.toy_scorer Examples.toy_mean Examples.argsort_stable 3
      "https://youtu.be/dQw4w9WgXcQ" 10 tt = (Ret (Report rep), tr, tt) /\
    extract_common_words (accumulated tr) 4 100 None
    = inr (common_words rep) /\
    List.length (common_words rep) <= 100.
Proof.
  eexists _, _. split; [reflexivity|].
  destruct (generate_report_common_words unit Examples.one_video
              (Examples.paged_threads
                 [Examples.item "ann" "great video loved it" 2] 2)
              Examples.toy_scorer Examples.toy_mean Examples.argsort_stable 3
              "https://youtu.be/dQw4w9WgXcQ" 10 tt _ _ tt eq_refl)
    as [Hwords [Hlen _]].
  split; [exact Hwords | exact Hlen].
Defined.



(* ===================================================================== *)
(** ** Properties of the comment scrapper                                *)
(* ===================================================================== *)

Section ScrapperFacts.

Import Scrapper.

Variable S : Type.
Variable threads_list : S -> page_request -> threads_response * S.

(** Every way out of the loop, read off its trace. *)
Lemma pages_cases (fuel : nat) (video_id : string) :
  forall results comments s r tr s',
    pages threads_list fuel video_id results comments s = (r, tr, s') ->
    (r = Fuel /\ answered tr) \/
    (r = Exn HttpError /\
     exists tr0 rq, tr = tr0 ++ [(rq, ThreadsError)] /\ answered tr0) \/
    (r = Ret (comments ++ map row_of_item (fst results) ++ rows_of tr) /\
     answered tr).
Proof.
  assert (Hnil : answered []) by (intros rq resp []).
  assert (Hcons : forall rq items next tr,
             answered tr -> answered ((rq, ThreadsPage items next) :: tr)).
  { intros rq items next tr Htr rq' resp' [[= <- <-] | Hin];
      [discriminate | now apply (Htr rq')]. }
  induction fuel as [|fuel IH]; intros [items next] comments s r tr s' H;
    cbn [pages] in H.
  - injection H as <- <- <-. left. split; [reflexivity | exact Hnil].
  - destruct next as [nextPage|].
    + destruct (threads_list s _) as [[|items' next'] s1].
      * injection H as <- <- <-. right. left. split; [reflexivity|].
        eexists [], _. split; [reflexivity | exact Hnil].
      * destruct (pages threads_list fuel video_id (items', next') _ s1)
          as [[r1 tr1] s2] eqn:Hrec.
        injection H as <- <- <-. apply IH in Hrec.
        destruct Hrec as [[-> Hok] | [[-> [tr0 [rq [-> Hok]]]] | [-> Hok]]].
        -- left. split; [reflexivity | now apply Hcons].
        -- right. left. split; [reflexivity|].
           eexists (_ :: tr0), rq. split; [reflexivity | now apply Hcons].
        -- right. right. cbn [fst snd rows_of] in *.
           split; [now rewrite <- !app_assoc | now apply Hcons].
    + injection H as <- <- <-. right. right. cbn [fst snd rows_of].
      rewrite app_nil_r. split; [reflexivity | exact Hnil].
Qed.

(** A loop that returns was answered without a token at last, and with a
    token every time before. *)
Lemma pages_ret (fuel : nat) (video_id : string) :
  forall results comments s cs tr s' rq0,
    pages threads_list fuel video_id results comments s = (Ret cs, tr, s') ->
    exists tr0 rq items,
      (rq0, ThreadsPage (fst results) (snd results)) :: tr
      = tr0 ++ [(rq, ThreadsPage items None)] /\
      forall rq' resp, In (rq', resp) tr0 ->
        exists items' tok, resp = ThreadsPage items' (Some tok).
Proof.
  induction fuel as [|fuel IH]; intros [items next] comments s cs tr s' rq0 H;
    cbn [pages] in H; [discriminate|].
  destruct next as [nextPage|].
  - destruct (threads_list s _) as [[|items' next'] s1]; [discriminate|].
    destruct (pages threads_list fuel video_id (items', next') _ s1)
      as [[r1 tr1] s2] eqn:Hrec.
    injection H as -> <- <-.
    destruct (IH _ _ _ _ _ _
                {| rq_videoId := video_id; rq_pageToken := Some nextPage |}
                Hrec) as [tr0 [rq [items1 [Heq Hall]]]].
    cbn [fst snd] in Heq |- *.
    exists ((rq0, ThreadsPage items (Some nextPage)) :: tr0), rq, items1.
    split; [cbn [app]; now rewrite Heq|].
    intros rq' resp [[= <- <-] | Hin]; [now exists items, nextPage | eauto].
  - injection H as <- <- <-. exists [], rq0, items. cbn [fst snd app].
    split; [reflexivity | intros rq' resp []].
Qed.

End ScrapperFacts.

(** X21.  [save_video_comments_to_csv] saves all or nothing.  When it
    returns a file name, that is the video id followed by [.csv], no
    request failed, and the one file written holds the header and then a
    row for every item of every page answered, in order.  When a request
    fails, the first or a later one, it returns [None], shows an error and
    writes no file: the rows of the pages fetched before are dropped. *)
Theorem save_video_comments_all_or_nothing
    (S : Type)
    (threads_list : S -> Scrapper.page_request -> threads_response * S)
    (fuel : nat) (video_id : string) (s : S)
    (r : run (option string)) (effects : list Scrapper.effect)
    (tr : list (Scrapper.page_request * threads_response)) (s' : S) :
  Scrapper.save_video_comments_to_csv threads_list fuel video_id s
  = (r, effects, tr, s') ->
  (forall filename, r = Ret (Some filename) ->
     filename = String.append video_id ".csv" /\
     effects = [Scrapper.WriteCsv filename
                  (Scrapper.header :: Scrapper.rows_of tr)] /\
     Scrapper.answered tr) /\
  ((exists rq, In (rq, ThreadsError) tr) ->
     r = Ret None /\ effects = [Scrapper.StError]) /\
  (forall e, r <> Exn e).
Proof.
  unfold Scrapper.save_video_comments_to_csv.
  destruct (threads_list s _) as [[|items next] s1].
  - intros [= <- <- <- <-]. repeat split; discriminate.
  - destruct (Scrapper.pages threads_list fuel video_id (items, next) [] s1)
      as [[r1 tr1] s2] eqn:Hloop.
    apply pages_cases in Hloop.
    assert (Hfirst : forall rq, Scrapper.answered tr1 ->
               ~ In (rq, ThreadsError)
                    (({| Scrapper.rq_videoId := video_id;
                         Scrapper.rq_pageToken := None |},
                      ThreadsPage items next) :: tr1)).
    { intros rq Hok [Hin | Hin]; [discriminate Hin|].
      now destruct (Hok rq ThreadsError Hin). }
    destruct Hloop as [[-> Hok] | [[-> [tr0 [rq [-> Hok]]]] | [-> Hok]]];
      intros [= <- <- <- <-].
    + split; [discriminate|]. split; [|discriminate].
      intros [rq Hin]. now apply Hfirst in Hin.
    + split; [discriminate|]. split; [tauto | discriminate].
    + cbn [fst app]. split; [|split; [|discriminate]].
      * intros filename [= <-]. repeat split.
        intros rq resp [[= <- <-] | Hin]; [discriminate | now apply (Hok rq)].
      * intros [rq Hin]. now apply Hfirst in Hin.
Qed.

Lemma save_video_comments_all_or_nothing_witness :
  exists tr s',
    Scrapper.save_video_comments_to_csv Scrapper.page_then_failure 5
      "dQw4w9WgXcQ" 0 = (Ret None, [Scrapper.StError], tr, s') /\
    Scrapper.rows_of tr = [["ann"; "first"]].
Proof.
  destruct (Scrapper.save_video_comments_to_csv Scrapper.page_then_failure 5
              "dQw4w9WgXcQ" 0) as [[[r effects] tr] s'] eqn:Hrun.
  destruct (save_video_comments_all_or_nothing nat Scrapper.page_then_failure
              5 "dQw4w9WgXcQ" 0 r effects tr s' Hrun) as [_ [Hfail _]].
  injection Hrun as _ _ <- _.
  destruct Hfail as [-> ->].
  - eexists. right. left. reflexivity.
  - eexists _, _. split; reflexivity.
Defined.

(** X22.  The scrapper goes on as long as an answer holds a page token,
    whatever the token is, the empty string included, and with no limit on
    the number of comments: when it returns a file name, the last answer is
    the only one without a token. *)
Theorem save_video_comments_until_no_token
    (S : Type)
    (threads_list : S -> Scrapper.page_request -> threads_response * S)
    (fuel : nat) (video_id : string) (s : S) (filename : string)
    (effects : list Scrapper.effect)
    (tr : list (Scrapper.page_request * threads_response)) (s' : S) :
  Scrapper.save_video_comments_to_csv threads_list fuel video_id s
  = (Ret (Some filename), effects, tr, s') ->
  exists tr0 rq items,
    tr = tr0 ++ [(rq, ThreadsPage items None)] /\
    forall rq' resp, In (rq', resp) tr0 ->
      exists items' tok, resp = ThreadsPage items' (Some tok).
Proof.
  unfold Scrapper.save_video_comments_to_csv.
  destruct (threads_list s _) as [[|items next] s1]; [discriminate|].
  destruct (Scrapper.pages threads_list fuel video_id (items, next) [] s1)
    as [[r1 tr1] s2] eqn:Hloop.
  destruct r1 as [cs|[|k| |]|]; try discriminate.
  intros [= _ _ <- _].
  apply (pages_ret S threads_list fuel video_id (items, next) [] s1 cs tr1 s2).
  exact Hloop.
Qed.

Lemma save_video_comments_until_no_token_witness :
  exists tr0 rq items,
    snd (fst (Scrapper.save_video_comments_to_csv (Scrapper.two_pages "") 5
                "dQw4w9WgXcQ" 0))
    = tr0 ++ [(rq, ThreadsPage items None)] /\
    List.length tr0 = 1.
Proof.
  destruct (Scrapper.save_video_comments_to_csv (Scrapper.two_pages "") 5
              "dQw4w9WgXcQ" 0) as [[[r effects] tr] s'] eqn:Hrun.
  assert (Hr : r = Ret (Some "dQw4w9WgXcQ.csv")).
  { injection Hrun as <- _ _ _. reflexivity. }
  subst r.
  destruct (save_video_comments_until_no_token nat (Scrapper.two_pages "") 5
              "dQw4w9WgXcQ" 0 _ effects tr s' Hrun)
    as [tr0 [rq [items [Htr _]]]].
  exists tr0, rq, items. cbn [fst snd]. split; [exact Htr|].
  injection Hrun as _ <- _. clear -Htr.
  apply (f_equal (@List.length _)) in Htr.
  rewrite length_app in Htr. cbn [List.length] in Htr. lia.
Defined.
